(** * Hazel Replacement: the rule engine of [hazel_service.py]

    A shallow embedding of the file-organisation core of
    [src/hazel_replacement/hazel_service.py] and the proofs of its
    specification.

    Conventions of the embedding.
    - Python [str] is [string]; the text handled is ASCII, and [str.lower]
      is ASCII lower-casing.
    - [pathlib.Path] is the record [Path] of a root and its components, as
      [PurePosixPath] keeps them; [Path.name], [Path.suffix], [Path.stem]
      and the [/] operator follow the library's definitions.
    - The file system is a finite map from paths to nodes.  The program
      reads and writes it through a small state-and-exception monad [M],
      which also collects the log records.
    - The [while True] loop of [generate_unique_filename] runs on fuel;
      running out of it is an outcome of its own, which no [except]
      clause catches.
    - What the program takes from its surroundings is a parameter:
      [urlparse_netloc] ([urllib.parse.urlparse(url).netloc]),
      [expanduser] ([os.path.expanduser]) and, in [is_file_ready], what
      other processes do to the file system during [time.sleep]. *)

From Stdlib Require Import Ascii ZArith Lia.
From stdpp Require Import base decidable option list strings pretty
  countable gmap fin_maps fin_sets.

Local Open Scope Z_scope.

(* ===================================================================== *)
(** * Python strings *)
(* ===================================================================== *)

Module Str.

(** [c.lower()] on one ASCII character. *)
Definition lower_char (c : ascii) : ascii :=
  let n := N_of_ascii c in
  if ((65 <=? n) && (n <=? 90))%N then ascii_of_N (n + 32) else c.

(** [s.lower()] *)
Fixpoint lower (s : string) : string :=
  match s with
  | EmptyString => EmptyString
  | String c t => String (lower_char c) (lower t)
  end.

(** [s.startswith(p)] *)
Definition startswith (s p : string) : bool := String.prefix p s.

(** [s.endswith(p)] *)
Definition endswith (s p : string) : bool :=
  String.prefix (String.rev p) (String.rev s).

(** [sub in s] for two strings. *)
Fixpoint contains (sub s : string) : bool :=
  String.prefix sub s ||
  match s with
  | EmptyString => false
  | String _ t => contains sub t
  end.

(** [c in s] for a character. *)
Fixpoint has_char (c : ascii) (s : string) : bool :=
  match s with
  | EmptyString => false
  | String a t => Ascii.eqb a c || has_char c t
  end.

Fixpoint rfind_go (c : ascii) (s : string) (i last : Z) : Z :=
  match s with
  | EmptyString => last
  | String a t => rfind_go c t (i + 1) (if Ascii.eqb a c then i else last)
  end.

(** [s.rfind(c)]: the index of the last [c], or [-1]. *)
Definition rfind (c : ascii) (s : string) : Z := rfind_go c s 0 (-1).

Fixpoint take (n : nat) (s : string) : string :=
  match n, s with
  | S n', String a t => String a (take n' t)
  | _, _ => EmptyString
  end.

Fixpoint drop (n : nat) (s : string) : string :=
  match n, s with
  | S n', String _ t => drop n' t
  | _, _ => s
  end.

(** [len(s)] *)
Definition len (s : string) : Z := Z.of_nat (String.length s).

(** [s[:i]] and [s[i:]] for [0 <= i]. *)
Definition slice_to (i : Z) (s : string) : string := take (Z.to_nat i) s.
Definition slice_from (i : Z) (s : string) : string := drop (Z.to_nat i) s.

(** [s.split(sep)] for a one-character separator. *)
Fixpoint split (sep : ascii) (s : string) : list string :=
  match s with
  | EmptyString => [EmptyString]
  | String a t =>
      if Ascii.eqb a sep then EmptyString :: split sep t
      else match split sep t with
           | [] => [String a EmptyString]
           | w :: ws => String a w :: ws
           end
  end.

(** [s.lstrip(c)] for a one-character set. *)
Fixpoint lstrip (c : ascii) (s : string) : string :=
  match s with
  | String a t => if Ascii.eqb a c then lstrip c t else s
  | EmptyString => EmptyString
  end.

(** Truthiness of a string: [bool(s)]. *)
Definition truthy (s : string) : bool :=
  match s with EmptyString => false | _ => true end.

(** [sub] occurs in [s] as a contiguous block. *)
Definition substring_of (sub s : string) : Prop :=
  ∃ a b, s = a +:+ sub +:+ b.

(** [s] is its own lower-casing. *)
Definition is_lower (s : string) : Prop := lower s = s.

End Str.

(* ===================================================================== *)
(** * [pathlib]: pure POSIX paths *)
(* ===================================================================== *)

(** A path as [PurePosixPath] holds it: the root (empty, one slash or two
    slashes) and the components. *)
Record Path := mkPath { root : string; parts : list string }.

Global Instance Path_eq_dec : EqDecision Path.
Proof. solve_decision. Defined.

Global Instance Path_countable : Countable Path :=
  inj_countable' (λ p, (root p, parts p)) (λ rp, mkPath rp.1 rp.2)
                 (λ p, match p with mkPath _ _ => eq_refl end).

Definition slash : ascii := "/"%char.
Definition dot : ascii := "."%char.

(** [_PosixFlavour.splitroot] *)
Definition splitroot (part : string) : string * string :=
  if Str.startswith part "/" then
    let stripped_part := Str.lstrip slash part in
    if Str.len part - Str.len stripped_part =? 2
    then ("//", stripped_part)
    else ("/", stripped_part)
  else ("", part).

(** The components kept from one string: split on the separator, empty
    components and ["."] dropped. *)
Definition components (rel : string) : list string :=
  filter (λ x, x ≠ "" ∧ x ≠ ".") (Str.split slash rel).

(** [Path(s)] *)
Definition parse_path (s : string) : Path :=
  let '(r, rel) := splitroot s in mkPath r (components rel).

(** [p / s] for a path and a string. *)
Definition joinpath (p : Path) (s : string) : Path :=
  let q := parse_path s in
  if Str.truthy (root q) then q else mkPath (root p) (parts p ++ parts q).

(** [p.name]: the last component, or the empty string. *)
Definition path_name (p : Path) : string := List.last (parts p) "".

(** [p.parent] *)
Definition parent (p : Path) : Path := mkPath (root p) (removelast (parts p)).

(** [p.suffix] *)
Definition suffix (p : Path) : string :=
  let name := path_name p in
  let i := Str.rfind dot name in
  if (0 <? i) && (i <? Str.len name - 1) then Str.slice_from i name else "".

(** [p.stem] *)
Definition stem (p : Path) : string :=
  let name := path_name p in
  let i := Str.rfind dot name in
  if (0 <? i) && (i <? Str.len name - 1) then Str.slice_to i name else name.

(* ===================================================================== *)
(** * Data classes *)
(* ===================================================================== *)

Module TypeRule.
Record t := mk {
  name : string;
  extensions : list string;
  destination : string
}.
End TypeRule.

Module WatchRule.
Record t := mk {
  name : string;
  watch_directory : Path;
  enabled : bool;
  redirect_domains : list string;
  type_rules : list TypeRule.t;
  redirect_destination : string;
  source_directories : list string
}.
End WatchRule.

(* ===================================================================== *)
(** * The configuration document *)
(* ===================================================================== *)

(** The document [yaml.safe_load] returns, with the types the service
    expects; [None] is a key that is absent. *)
Record TypeConfig := mkTypeConfig {
  cfg_extensions : option (list string);
  cfg_destination : option string
}.

Record RuleConfig := mkRuleConfig {
  cfg_name : option string;
  cfg_watch_directory : option string;
  cfg_enabled : option bool;
  cfg_redirect_domains : option (list string);
  cfg_type_rules : option (list (string * TypeConfig));
  cfg_redirect_destination : option string;
  cfg_source_directories : option (list string)
}.

Record Config := mkConfig {
  cfg_watch_rules : option (list RuleConfig)
}.

(** [d.get(key, default)] *)
Definition get {A} (o : option A) (default : A) : A := from_option id default o.

(** Python exceptions the model distinguishes. *)
Inductive exn :=
| KeyError (key : string)
| ValueError
| FileNotFoundError
| FileExistsError
| NotADirectoryError
| IsADirectoryError
| OSError
| ShutilError.

Global Instance exn_eq_dec : EqDecision exn.
Proof. solve_decision. Defined.

(** [d[key]] *)
Definition getitem {A} (key : string) (o : option A) : exn + A :=
  match o with Some a => inr a | None => inl (KeyError key) end.


(* ===================================================================== *)
(** * The file system and the monad of the service *)
(* ===================================================================== *)

(** The [com.apple.metadata:kMDItemWhereFroms] extended attribute of a
    node, as [xattr] and [plistlib.loads] deliver it. *)
Inductive where_froms :=
| AttrAbsent                      (* the key is not among the attributes *)
| AttrUnreadable                  (* reading or decoding it raises *)
| AttrUrls (urls : list string).  (* the decoded list of URLs *)

Record node := mkNode {
  node_is_dir : bool;
  st_size : Z;
  attr_where_froms : where_froms
}.

(** A directory as [os.mkdir] creates it. *)
Definition new_directory : node := mkNode true 0 AttrAbsent.

Inductive level := DEBUG | INFO | ERROR.

(** The log lines of the rule engine, by their format string. *)
Inductive message :=
| MsgMoved (name : string) (dest_file : Path)
| MsgFailedToMove (source : Path) (e : exn)
| MsgFileNotReady (name : string)
| MsgProcessing (name : string)
| MsgDomainRedirect (domain : option string) (name : string)
| MsgTypeMatch (rule_name : string) (name : string)
| MsgNoMatchingRule (name : string).

Record world := mkWorld {
  files : gmap Path node;
  log : list (level * message)
}.

Inductive outcome (A : Type) :=
| Return (a : A)
| Raise (e : exn)
| OutOfFuel.
Arguments Return {A} a.
Arguments Raise {A} e.
Arguments OutOfFuel {A}.

Definition M (A : Type) : Type := world → outcome A * world.

Definition ret {A} (a : A) : M A := λ w, (Return a, w).

Definition bind {A B} (m : M A) (k : A → M B) : M B := λ w,
  match m w with
  | (Return a, w') => k a w'
  | (Raise e, w') => (Raise e, w')
  | (OutOfFuel, w') => (OutOfFuel, w')
  end.

Definition raise {A} (e : exn) : M A := λ w, (Raise e, w).

Definition out_of_fuel {A} : M A := λ w, (OutOfFuel, w).

(** [try: body except Exception as e: handler e] *)
Definition try_except {A} (body : M A) (handler : exn → M A) : M A := λ w,
  match body w with
  | (Raise e, w') => handler e w'
  | r => r
  end.

Notation "'let*' x := m 'in' k" := (bind m (λ x, k))
  (at level 10, x name, m at level 100, k at level 200).
Notation "m >> k" := (bind m (λ _, k))
  (at level 100, k at level 200, right associativity).

Definition read {A} (f : gmap Path node → A) : M A := λ w,
  (Return (f (files w)), w).

Definition write (f : gmap Path node → gmap Path node) : M unit := λ w,
  (Return tt, mkWorld (f (files w)) (log w)).

(** [logger.debug], [logger.info], [logger.error] *)
Definition logger (lvl : level) (msg : message) : M unit := λ w,
  (Return tt, mkWorld (files w) (log w ++ [(lvl, msg)])).

(** ** System calls *)

(** [p.exists()] *)
Definition path_exists (p : Path) : M bool :=
  read (λ fs, bool_decide (is_Some (fs !! p))).

(** [p.is_dir()] *)
Definition is_dir (p : Path) : M bool :=
  read (λ fs, match fs !! p with Some n => node_is_dir n | None => false end).

(** [p.stat().st_size] *)
Definition stat_st_size (p : Path) : M Z := λ w,
  match files w !! p with
  | Some n => (Return (st_size n), w)
  | None => (Raise FileNotFoundError, w)
  end.

(** [time.sleep]: the service is idle, other processes are not. *)
Definition time_sleep (during_wait : gmap Path node → gmap Path node)
  : M unit := write during_wait.

(** [os.mkdir(p)] *)
Definition os_mkdir (p : Path) : M unit := λ w,
  match files w !! p with
  | Some _ => (Raise FileExistsError, w)
  | None =>
      match files w !! parent p with
      | None => (Raise FileNotFoundError, w)
      | Some d =>
          if node_is_dir d
          then (Return tt, mkWorld (<[p := new_directory]> (files w)) (log w))
          else (Raise NotADirectoryError, w)
      end
  end.

(** [Path.mkdir(parents=False, exist_ok=exist_ok)] *)
Definition mkdir_single (exist_ok : bool) (self : Path) : M unit :=
  try_except (os_mkdir self)
    (λ e, match e with
          | FileNotFoundError => raise e
          | _ => let* d := is_dir self in
                 if negb exist_ok || negb d then raise e else ret tt
          end).

(** [Path.mkdir(parents=True, exist_ok=exist_ok)], by recursion on the
    components from the last one up. *)
Fixpoint mkdir_parents (r : string) (rev_parts : list string)
    (exist_ok : bool) : M unit :=
  let self := mkPath r (rev rev_parts) in
  try_except (os_mkdir self)
    (λ e, match e with
          | FileNotFoundError =>
              match rev_parts with
              | [] => raise e
              | _ :: up =>
                  mkdir_parents r up true >>
                  mkdir_single exist_ok self
              end
          | _ => let* d := is_dir self in
                 if negb exist_ok || negb d then raise e else ret tt
          end).

(** [q] is [d] or lies below it. *)
Definition below (d q : Path) : Prop :=
  root d = root q ∧ parts d `prefix_of` parts q.

Global Instance below_dec d q : Decision (below d q).
Proof. unfold below. apply _. Defined.

(** The path of [q] once the directory [src] has become [dst]. *)
Definition rebase (src dst q : Path) : Path :=
  mkPath (root dst) (parts dst ++ drop (length (parts src)) (parts q)).

(** The entries of [fs] with the tree at [src] carried over to [dst]. *)
Definition move_tree (src dst : Path) (fs : gmap Path node)
  : gmap Path node :=
  list_to_map (prod_map (rebase src dst) id
                 <$> map_to_list (filter (λ kv, below src kv.1) fs))
  ∪ filter (λ kv, ¬ below src kv.1) fs.

(** The directory [d] has an entry. *)
Definition non_empty_dir (d : Path) (fs : gmap Path node) : bool :=
  bool_decide (filter (λ kv, kv.1 ≠ d ∧ below d kv.1) fs ≠ ∅).

(** [os.rename(src, dst)] on one device. *)
Definition os_rename (src dst : Path) : M unit := λ w,
  let fs := files w in
  match fs !! src with
  | None => (Raise FileNotFoundError, w)
  | Some n =>
      match fs !! parent dst with
      | None => (Raise FileNotFoundError, w)
      | Some d =>
          if negb (node_is_dir d) then (Raise NotADirectoryError, w)
          else if decide (src = dst) then (Return tt, w)
          else if node_is_dir n then
            if decide (below src dst) then (Raise OSError, w)
            else
              match fs !! dst with
              | Some t =>
                  if negb (node_is_dir t) then (Raise NotADirectoryError, w)
                  else if non_empty_dir dst fs
                  then (Raise OSError, w)
                  else (Return tt, mkWorld (move_tree src dst fs) (log w))
              | None => (Return tt, mkWorld (move_tree src dst fs) (log w))
              end
          else
            match fs !! dst with
            | Some t =>
                if node_is_dir t then (Raise IsADirectoryError, w)
                else (Return tt,
                       mkWorld (<[dst := n]> (delete src fs)) (log w))
            | None => (Return tt,
                        mkWorld (<[dst := n]> (delete src fs)) (log w))
            end
      end
  end.

(** [shutil.move(src, dst)] on one device: into [dst] when that is a
    directory, onto [dst] otherwise. *)
Definition shutil_move (src dst : Path) : M unit :=
  let* dst_is_dir := is_dir dst in
  if dst_is_dir then
    if decide (src = dst) then os_rename src dst
    else
      let real_dst := joinpath dst (path_name src) in
      let* taken := path_exists real_dst in
      if taken then raise ShutilError else os_rename src real_dst
  else os_rename src dst.

(** [xattr.xattr(p)] read at the provenance key and decoded:
    [None] when the key is absent. *)
Definition read_where_froms (p : Path) : M (option (list string)) := λ w,
  match files w !! p with
  | None => (Raise OSError, w)
  | Some n =>
      match attr_where_froms n with
      | AttrAbsent => (Return None, w)
      | AttrUnreadable => (Raise OSError, w)
      | AttrUrls urls => (Return (Some urls), w)
      end
  end.

(* ===================================================================== *)
(** * The service *)
(* ===================================================================== *)

Section Environment.

(** [urllib.parse.urlparse(url).netloc]; [None] when the parser raises. *)
Variable urlparse_netloc : string → option string.

(** [os.path.expanduser] *)
Variable expanduser : string → string.

(** The [TypeRule] list of one rule's [type_rules] mapping, in the
    mapping's order. *)
Definition parse_type_rules (items : list (string * TypeConfig))
  : list TypeRule.t :=
  map (λ '(type_name, type_config),
         TypeRule.mk type_name
           (map Str.lower (get (cfg_extensions type_config) []))
           (get (cfg_destination type_config) type_name))
      items.

Fixpoint parse_rule_configs (rule_configs : list RuleConfig)
  : exn + list WatchRule.t :=
  match rule_configs with
  | [] => inr []
  | rule_config :: rest =>
      if negb (get (cfg_enabled rule_config) true) then
        parse_rule_configs rest
      else
        let type_rules :=
          parse_type_rules (get (cfg_type_rules rule_config) []) in
        match getitem "watch_directory" (cfg_watch_directory rule_config) with
        | inl e => inl e
        | inr dir =>
            let watch_dir := parse_path (expanduser dir) in
            let source_dirs :=
              get (cfg_source_directories rule_config) ["."] in
            match getitem "name" (cfg_name rule_config) with
            | inl e => inl e
            | inr rule_name =>
                let rule :=
                  WatchRule.mk rule_name watch_dir
                    (get (cfg_enabled rule_config) true)
                    (get (cfg_redirect_domains rule_config) [])
                    type_rules
                    (get (cfg_redirect_destination rule_config) "tmp")
                    source_dirs in
                match parse_rule_configs rest with
                | inl e => inl e
                | inr rules => inr (rule :: rules)
                end
            end
        end
  end.

(** [parse_watch_rules(config)]; [inl e] when it raises [e]. *)
Definition parse_watch_rules (config : Config) : exn + list WatchRule.t :=
  parse_rule_configs (get (cfg_watch_rules config) []).

(** [extract_domain(url)] *)
Definition extract_domain (url : string) : option string :=
  match urlparse_netloc url with
  | Some netloc => Some (Str.lower netloc)
  | None => None
  end.

(** The [for pattern in redirect_domains] loop. *)
Fixpoint any_pattern_in (redirect_domains : list string)
    (domain_lower : string) : bool :=
  match redirect_domains with
  | [] => false
  | pattern :: rest =>
      let pattern_lower := Str.lower pattern in
      if Str.contains pattern_lower domain_lower then true
      else any_pattern_in rest domain_lower
  end.

(** [matches_redirect_domain(url, redirect_domains)] *)
Definition matches_redirect_domain (url : string)
    (redirect_domains : list string) : bool :=
  if negb (Str.truthy url) then false
  else
    match extract_domain url with
    | None => false
    | Some domain =>
        if negb (Str.truthy domain) then false
        else
          let domain_lower := Str.lower domain in
          any_pattern_in redirect_domains domain_lower
    end.

(** [get_file_extension(file_path)] *)
Definition get_file_extension (file_path : Path) : string :=
  Str.lower (suffix file_path).

(** [find_matching_type_rule(file_path, type_rules)] *)
Definition find_matching_type_rule (file_path : Path)
    (type_rules : list TypeRule.t) : option TypeRule.t :=
  let ext := get_file_extension file_path in
  (fix loop (rules : list TypeRule.t) : option TypeRule.t :=
     match rules with
     | [] => None
     | rule :: rest =>
         if decide (ext ∈ TypeRule.extensions rule) then Some rule
         else loop rest
     end) type_rules.


(** [get_download_source(file_path)] *)
Definition get_download_source (file_path : Path) : M (option string) :=
  try_except
    (let* attr := read_where_froms file_path in
     match attr with
     | Some (url :: _) => ret (Some url)
     | _ => ret None
     end)
    (λ _, ret None).

(** [ensure_directory(directory)] *)
Definition ensure_directory (directory : Path) : M unit :=
  mkdir_parents (root directory) (rev (parts directory)) true.

(** The [while True] loop of [generate_unique_filename], [fuel]
    iterations of it. *)
Fixpoint unique_loop (fuel : nat) (destination : Path)
    (stem suffix : string) (counter : N) : M Path :=
  match fuel with
  | O => out_of_fuel
  | S fuel' =>
      let new_name := stem +:+ "_" +:+ pretty counter +:+ suffix in
      let dest_file := joinpath destination new_name in
      let* taken := path_exists dest_file in
      if negb taken then ret dest_file
      else unique_loop fuel' destination stem suffix (counter + 1)%N
  end.

(** [generate_unique_filename(destination, original_name)] *)
Definition generate_unique_filename (fuel : nat) (destination : Path)
    (original_name : string) : M Path :=
  let dest_file := joinpath destination original_name in
  let* taken := path_exists dest_file in
  if negb taken then ret dest_file
  else
    let stem := stem (parse_path original_name) in
    let suffix := suffix (parse_path original_name) in
    unique_loop fuel destination stem suffix 1%N.

(** [move_file(source, destination_dir, logger)] *)
Definition move_file (fuel : nat) (source destination_dir : Path)
  : M bool :=
  try_except
    (ensure_directory destination_dir >>
     let* dest_file := generate_unique_filename fuel destination_dir
                    (path_name source) in
     shutil_move source dest_file >>
     logger INFO (MsgMoved (path_name source) dest_file) >>
     ret true)
    (λ e, logger ERROR (MsgFailedToMove source e) >> ret false).

(** [is_file_ready(file_path)]; [during_wait] is what happens to the
    file system while the service sleeps. *)
Definition is_file_ready
    (during_wait : gmap Path node → gmap Path node) (file_path : Path)
  : M bool :=
  try_except
    (let* present := path_exists file_path in
     if negb present then ret false
     else
       let* size1 := stat_st_size file_path in
       time_sleep during_wait >>
       let* present := path_exists file_path in
       if negb present then ret false
       else
         let* size2 := stat_st_size file_path in
         ret (size1 =? size2))
    (λ _, ret false).

(** [process_file(file_path, rule, logger)] *)
Definition process_file (fuel : nat)
    (during_wait : gmap Path node → gmap Path node)
    (file_path : Path) (rule : WatchRule.t) : M unit :=
  let* directory := is_dir file_path in
  if directory then ret tt
  else
    let name := path_name file_path in
    if Str.startswith name "." || Str.endswith name ".tmp" then ret tt
    else if bool_decide (name ∈ [".DS_Store"; "Thumbs.db"; ".localized"])
    then ret tt
    else
      let* ready := is_file_ready during_wait file_path in
      if negb ready then logger DEBUG (MsgFileNotReady name)
      else
        logger DEBUG (MsgProcessing name) >>
        let* download_url := get_download_source file_path in
        (* the statements after the redirect [if] *)
        let check_file_type_rules : M unit :=
          let type_rule :=
            find_matching_type_rule file_path (WatchRule.type_rules rule) in
          match type_rule with
          | Some type_rule =>
              logger INFO (MsgTypeMatch (TypeRule.name type_rule) name) >>
              let dest_dir := joinpath (WatchRule.watch_directory rule)
                                (TypeRule.destination type_rule) in
              move_file fuel file_path dest_dir >>
              ret tt
          | None => logger DEBUG (MsgNoMatchingRule name)
          end in
        match download_url with
        | Some url =>
            if Str.truthy url
               && matches_redirect_domain url (WatchRule.redirect_domains rule)
            then
              let domain := extract_domain url in
              logger INFO (MsgDomainRedirect domain name) >>
              let dest_dir := joinpath (WatchRule.watch_directory rule)
                                (WatchRule.redirect_destination rule) in
              move_file fuel file_path dest_dir >>
              ret tt
            else check_file_type_rules
        | None => check_file_type_rules
        end.

End Environment.

(* ===================================================================== *)
(** * A reference environment *)
(* ===================================================================== *)

(** The two library functions the service is parameterised by, written out
    for ASCII text, to run the service on examples.  [urlparse_netloc]
    follows [urllib.parse.urlsplit]; the validation of a bracketed IPv6
    host is left out.  [expanduser] follows [posixpath.expanduser] for the
    current user, whose home directory is a parameter. *)
Module Reference.

Definition c0_control_or_space (c : ascii) : bool :=
  (N_of_ascii c <=? 32)%N.

Fixpoint lstrip_c0 (s : string) : string :=
  match s with
  | String a t => if c0_control_or_space a then lstrip_c0 t else s
  | EmptyString => EmptyString
  end.

Definition unsafe_byte (c : ascii) : bool :=
  let n := N_of_ascii c in ((n =? 9) || (n =? 10) || (n =? 13))%N.

Fixpoint remove_unsafe (s : string) : string :=
  match s with
  | String a t =>
      if unsafe_byte a then remove_unsafe t else String a (remove_unsafe t)
  | EmptyString => EmptyString
  end.

Definition is_alpha (c : ascii) : bool :=
  let n := N_of_ascii c in
  (((65 <=? n) && (n <=? 90)) || ((97 <=? n) && (n <=? 122)))%N.

Definition scheme_char (c : ascii) : bool :=
  let n := N_of_ascii c in
  is_alpha c || ((48 <=? n) && (n <=? 57))%N
  || Str.has_char c "+-.".

Fixpoint all_chars (f : ascii → bool) (s : string) : bool :=
  match s with
  | String a t => f a && all_chars f t
  | EmptyString => true
  end.

Fixpoint find_go (c : ascii) (s : string) (i : Z) : Z :=
  match s with
  | String a t => if Ascii.eqb a c then i else find_go c t (i + 1)
  | EmptyString => -1
  end.

(** [s.find(c)] *)
Definition find (c : ascii) (s : string) : Z := find_go c s 0.

(** The URL with its scheme and colon taken off, when it has a scheme. *)
Definition strip_scheme (url : string) : string :=
  let i := find ":" url in
  match url with
  | String first _ =>
      if (0 <? i) && is_alpha first
         && all_chars scheme_char (Str.slice_to i url)
      then Str.slice_from (i + 1) url
      else url
  | EmptyString => url
  end.

(** [_splitnetloc(url, 0)[0]]: up to the first of [/], [?], [#]. *)
Fixpoint until_delimiter (s : string) : string :=
  match s with
  | String a t =>
      if Str.has_char a "/?#" then EmptyString
      else String a (until_delimiter t)
  | EmptyString => EmptyString
  end.

Definition urlparse_netloc (url : string) : option string :=
  let url := strip_scheme (remove_unsafe (lstrip_c0 url)) in
  if Str.startswith url "//" then
    let netloc := until_delimiter (Str.slice_from 2 url) in
    if xorb (Str.has_char "[" netloc) (Str.has_char "]" netloc)
    then None
    else Some netloc
  else Some "".

(** [s.rstrip('/')] *)
Definition rstrip_slash (s : string) : string :=
  String.rev (Str.lstrip slash (String.rev s)).

Definition expanduser (home path : string) : string :=
  if negb (Str.startswith path "~") then path
  else
    let rest := Str.slice_from 1 path in
    if negb (Str.truthy rest) || Str.startswith rest "/" then
      let expanded := rstrip_slash home +:+ rest in
      if Str.truthy expanded then expanded else "/"
    else path.

End Reference.

(* ===================================================================== *)
(** * An example: a Downloads folder *)
(* ===================================================================== *)

Module Example.

Definition downloads : Path := parse_path "/Users/me/Downloads".

Definition file (size : Z) (attr : where_froms) : node :=
  mkNode false size attr.

Definition from_facebook : where_froms :=
  AttrUrls ["https://www.Facebook.com/photos/pic.jpg";
            "https://www.facebook.com/"].

Definition rule : WatchRule.t :=
  WatchRule.mk "Downloads" downloads true ["facebook"]
    [TypeRule.mk "Documents" [".txt"] "Documents";
     TypeRule.mk "Photos" [".jpg"; ".jpeg"] "Photos";
     TypeRule.mk "Screenshots" [".png"; ".jpg"] "Screenshots"]
    "tmp" ["."].

Definition tree : gmap Path node :=
  list_to_map
    [(parse_path "/", new_directory);
     (parse_path "/Users", new_directory);
     (parse_path "/Users/me", new_directory);
     (downloads, new_directory);
     (joinpath downloads "pic.jpg", file 2048 from_facebook);
     (joinpath downloads "draft.jpg.tmp", file 10 from_facebook);
     (joinpath downloads "a.txt", file 5 AttrAbsent);
     (joinpath downloads "notes.xyz",
        file 7 (AttrUrls ["https://example.org/notes.xyz"]));
     (joinpath downloads "empty.bin", file 0 AttrUnreadable);
     (joinpath downloads "local.jpg",
        file 9 (AttrUrls ["downloads/local.jpg"]));
     (joinpath downloads "Documents", new_directory);
     (joinpath downloads "Documents/a.txt", file 1 AttrAbsent);
     (joinpath downloads "Archive", new_directory);
     (joinpath downloads "Archive/a.txt", file 2 AttrAbsent);
     (joinpath downloads "Archive/a_1.txt", file 3 AttrAbsent)].

Definition world0 : world := mkWorld tree [].

(** The same folder with a regular file where the redirect destination
    should be. *)
Definition blocked : world :=
  mkWorld (<[joinpath downloads "tmp" := file 4 AttrAbsent]> tree) [].

(** Another process deletes [empty.bin] during the wait. *)
Definition deleting (fs : gmap Path node) : gmap Path node :=
  delete (joinpath downloads "empty.bin") fs.

Definition document : Config :=
  mkConfig (Some
    [mkRuleConfig (Some "Downloads") (Some "~/Downloads") None
       (Some ["facebook"])
       (Some [("Photos", mkTypeConfig (Some [".JPG"; ".Jpeg"]) None);
              ("Docs", mkTypeConfig (Some [".txt"]) (Some "Documents"))])
       None None;
     mkRuleConfig (Some "Desktop") (Some "~/Desktop") (Some false)
       None None None None]).

(** The rules of [document] for a user whose home is [/Users/me]. *)
Definition parsed : list WatchRule.t :=
  [WatchRule.mk "Downloads" downloads true ["facebook"]
     [TypeRule.mk "Photos" [".jpg"; ".jpeg"] "Photos";
      TypeRule.mk "Docs" [".txt"] "Documents"]
     "tmp" ["."]].

End Example.

(* ===================================================================== *)
(** * Vocabulary of the specification *)
(* ===================================================================== *)

(** A component kept by [Path] has no separator and is neither empty
    nor the dot. *)
Definition clean (w : string) : Prop :=
  Str.has_char slash w = false ∧ w ≠ "" ∧ w ≠ ".".

(** The name [stem_N suffix] that [generate_unique_filename] tries at
    counter [N]. *)
Definition numbered (stem suffix : string) (counter : N) : string :=
  stem +:+ "_" +:+ pretty counter +:+ suffix.

(** The path of that name in [destination]. *)
Definition candidate (destination : Path) (original_name : string)
    (counter : N) : Path :=
  joinpath destination
    (numbered (stem (parse_path original_name))
              (suffix (parse_path original_name)) counter).

(** The first URL of the provenance attribute of [p], if it can be read. *)
Definition download_source (fs : gmap Path node) (p : Path) : option string :=
  match fs !! p with
  | Some n =>
      match attr_where_froms n with
      | AttrUrls (url :: _) => Some url
      | _ => None
      end
  | None => None
  end.

(** [p] is there in both samples, with one size. *)
Definition stable_size (fs1 fs2 : gmap Path node) (p : Path) : Prop :=
  ∃ n1 n2, fs1 !! p = Some n1 ∧ fs2 !! p = Some n2 ∧ st_size n1 = st_size n2.

Global Instance stable_size_dec fs1 fs2 p : Decision (stable_size fs1 fs2 p).
Proof.
  unfold stable_size.
  destruct (fs1 !! p) as [n1|]; [|right; by intros (? & ? & ? & _)].
  destruct (fs2 !! p) as [n2|]; [|right; by intros (? & ? & _ & ? & _)].
  destruct (decide (st_size n1 = st_size n2)) as [Heq|Hne].
  - left. by exists n1, n2.
  - right. intros (? & ? & [= <-] & [= <-] & ?). done.
Defined.

(** The world [w'] has every entry of [w], and the same log. *)
Definition extends (w w' : world) : Prop :=
  files w ⊆ files w' ∧ log w' = log w.

(** [p] is a regular file of [fs]. *)
Definition regular_file (fs : gmap Path node) (p : Path) : Prop :=
  ∃ n, fs !! p = Some n ∧ node_is_dir n = false.

(** [p] is a directory of [fs]. *)
Definition directory (fs : gmap Path node) (p : Path) : Prop :=
  ∃ n, fs !! p = Some n ∧ node_is_dir n = true.

Global Instance regular_file_dec fs p : Decision (regular_file fs p).
Proof.
  unfold regular_file.
  destruct (fs !! p) as [n|]; [|right; by intros (? & ? & _)].
  destruct (node_is_dir n) eqn:Hd.
  - right. intros (? & [= <-] & ?). congruence.
  - left. by exists n.
Defined.

Global Instance directory_dec fs p : Decision (directory fs p).
Proof.
  unfold directory.
  destruct (fs !! p) as [n|]; [|right; by intros (? & ? & _)].
  destruct (node_is_dir n) eqn:Hd.
  - left. by exists n.
  - right. intros (? & [= <-] & ?). congruence.
Defined.

(** The names [process_file] returns on: hidden files, temporary files
    and the litter of the operating system. *)
Definition skipped_name (name : string) : bool :=
  Str.startswith name "." || Str.endswith name ".tmp"
  || bool_decide (name ∈ [".DS_Store"; "Thumbs.db"; ".localized"]).

(** [process_file] gets as far as its rule chain on [file_path]: a regular
    file, not a skipped name, and ready. *)
Definition passes_checks (during_wait : gmap Path node → gmap Path node)
    (file_path : Path) (w : world) : Prop :=
  regular_file (files w) file_path
  ∧ skipped_name (path_name file_path) = false
  ∧ stable_size (files w) (during_wait (files w)) file_path.

(** The world in which the rule chain of [process_file] starts. *)
Definition at_rules (during_wait : gmap Path node → gmap Path node)
    (file_path : Path) (w : world) : world :=
  mkWorld (during_wait (files w))
          (log w ++ [(DEBUG, MsgProcessing (path_name file_path))]).

(** The world [w] with one more log record. *)
Definition logged (lvl : level) (msg : message) (w : world) : world :=
  mkWorld (files w) (log w ++ [(lvl, msg)]).

(** What [process_file] does on a redirect match: the log line and the
    move to [watch_directory / redirect_destination]. *)
Definition redirect (urlparse_netloc : string → option string) (fuel : nat)
    (file_path : Path) (rule : WatchRule.t) (url : string) : M unit :=
  logger INFO (MsgDomainRedirect (extract_domain urlparse_netloc url)
                 (path_name file_path)) >>
  move_file fuel file_path
    (joinpath (WatchRule.watch_directory rule)
              (WatchRule.redirect_destination rule)) >>
  ret tt.

(** What [process_file] does once the redirect is out of the way: the
    move to the destination of the first matching type rule, or nothing. *)
Definition type_matching (fuel : nat) (file_path : Path)
    (rule : WatchRule.t) : M unit :=
  match find_matching_type_rule file_path (WatchRule.type_rules rule) with
  | Some type_rule =>
      logger INFO (MsgTypeMatch (TypeRule.name type_rule)
                     (path_name file_path)) >>
      move_file fuel file_path
        (joinpath (WatchRule.watch_directory rule)
                  (TypeRule.destination type_rule)) >>
      ret tt
  | None => logger DEBUG (MsgNoMatchingRule (path_name file_path))
  end.

(* ===================================================================== *)
(** * The event gate and the start-up of the service *)
(* ===================================================================== *)

(** A file system event of [watchdog], as [HazelEventHandler] reads it;
    [dest_path] is [None] on an event without that attribute. *)
Record Event := mkEvent {
  is_directory : bool;
  src_path : string;
  dest_path : option string
}.

(** The path of an event: [event.dest_path] when the event has one that is
    not empty, [event.src_path] otherwise. *)
Definition event_path (event : Event) : string :=
  match dest_path event with
  | Some dest => if Str.truthy dest then dest else src_path event
  | None => src_path event
  end.

(** The directory a source-directory entry stands for. *)
Definition allowed_path (rule : WatchRule.t) (src_dir : string) : Path :=
  if decide (src_dir = ".") then WatchRule.watch_directory rule
  else joinpath (WatchRule.watch_directory rule) src_dir.

(** [HazelEventHandler._should_process(event)], for the handler of [rule]. *)
Definition _should_process (rule : WatchRule.t) (event : Event) : bool :=
  if is_directory event then false
  else
    let file_path := parse_path (event_path event) in
    let file_parent := parent file_path in
    let allowed :=
      (fix loop (source_directories : list string) : bool :=
         match source_directories with
         | [] => false
         | src_dir :: rest =>
             if decide (file_parent = allowed_path rule src_dir) then true
             else loop rest
         end) (WatchRule.source_directories rule) in
    if negb allowed then false else true.

(** [for x in xs: body(x)] *)
Fixpoint for_each {A} (xs : list A) (body : A → M unit) : M unit :=
  match xs with
  | [] => ret tt
  | x :: rest => body x >> for_each rest body
  end.

(** [HazelService._setup_directories()], for the rules of the service. *)
Definition _setup_directories (rules : list WatchRule.t) : M unit :=
  for_each rules (λ rule,
    ensure_directory (WatchRule.watch_directory rule) >>
    ensure_directory (joinpath (WatchRule.watch_directory rule)
                        (WatchRule.redirect_destination rule)) >>
    for_each (WatchRule.type_rules rule) (λ type_rule,
      ensure_directory (joinpath (WatchRule.watch_directory rule)
                          (TypeRule.destination type_rule)))).

(** One round of [_setup_directories]. *)
Definition setup_rule (rule : WatchRule.t) : M unit :=
  ensure_directory (WatchRule.watch_directory rule) >>
  ensure_directory (joinpath (WatchRule.watch_directory rule)
                      (WatchRule.redirect_destination rule)) >>
  for_each (WatchRule.type_rules rule) (λ type_rule,
    ensure_directory (joinpath (WatchRule.watch_directory rule)
                        (TypeRule.destination type_rule))).

(** The directories [_setup_directories] is to provide for [rule]. *)
Definition rule_directories (rule : WatchRule.t) : list Path :=
  WatchRule.watch_directory rule
  :: joinpath (WatchRule.watch_directory rule)
       (WatchRule.redirect_destination rule)
  :: map (λ type_rule, joinpath (WatchRule.watch_directory rule)
                         (TypeRule.destination type_rule))
       (WatchRule.type_rules rule).


(** The shape of a file extension: a dot, then at least one character,
    none of them a dot. *)
Definition dotted (ext : string) : Prop :=
  ∃ rest, ext = String dot rest ∧ rest ≠ "" ∧ Str.has_char dot rest = false.

(* ===================================================================== *)
(** * More of the example folder *)
(* ===================================================================== *)

Module Scenario.

(** The example folder once the service has made its directories. *)
Definition prepared : world :=
  mkWorld (<[joinpath Example.downloads "tmp" := new_directory]>
             (<[joinpath Example.downloads "Photos" := new_directory]>
                (<[joinpath Example.downloads "Screenshots" := new_directory]>
                   Example.tree))) [].

(** A download in progress: [pic.jpg] grows during the wait. *)
Definition growing (fs : gmap Path node) : gmap Path node :=
  <[joinpath Example.downloads "pic.jpg"
    := Example.file 4096 Example.from_facebook]> fs.

(** The event [watchdog] sends for [pic.jpg] once it is in [Photos]. *)
Definition filed : Event :=
  mkEvent false "/Users/me/Downloads/pic.jpg"
    (Some "/Users/me/Downloads/Photos/pic.jpg").

End Scenario.

(* ===================================================================== *)
(** * Properties of the string operations *)
(* ===================================================================== *)

Lemma app_cons a s t : String a s +:+ t = String a (s +:+ t).
Proof. reflexivity. Qed.

Lemma app_empty_l t : "" +:+ t = t.
Proof. reflexivity. Qed.

Lemma app_empty_r s : s +:+ "" = s.
Proof. induction s as [|a s IH]; [done|]. by rewrite app_cons, IH. Qed.

Lemma length_app_string s t :
  String.length (s +:+ t) = (String.length s + String.length t)%nat.
Proof. induction s as [|a s IH]; [done|]. rewrite app_cons. simpl. lia. Qed.

(** Cancellation on the right. *)
Lemma app_inj_r s1 s2 t : s1 +:+ t = s2 +:+ t → s1 = s2.
Proof.
  revert s2. induction s1 as [|a s1 IH]; intros [|b s2] Heq.
  - done.
  - apply (f_equal String.length) in Heq.
    rewrite app_empty_l, length_app_string in Heq. simpl in Heq. lia.
  - apply (f_equal String.length) in Heq.
    rewrite app_empty_l, length_app_string in Heq. simpl in Heq. lia.
  - rewrite !app_cons in Heq. injection Heq as -> Heq. f_equal. by apply IH.
Qed.

Lemma prefix_spec p s : String.prefix p s = true ↔ ∃ b, s = p +:+ b.
Proof.
  revert s. induction p as [|a p IH]; intros [|c s]; simpl.
  - split; [|done]. intros _. by exists "".
  - split; [|done]. intros _. by exists (String c s).
  - split; [done|]. intros [b Hb]. by rewrite app_cons in Hb.
  - destruct (ascii_dec a c) as [->|Hne].
    + rewrite IH. split; intros [b Hb]; exists b.
      * by rewrite app_cons, Hb.
      * rewrite app_cons in Hb. by injection Hb.
    + split; [done|]. intros [b Hb]. rewrite app_cons in Hb. congruence.
Qed.

Lemma contains_empty sub : Str.contains sub "" = String.prefix sub "".
Proof. simpl. apply orb_false_r. Qed.

Lemma contains_String sub c s :
  Str.contains sub (String c s)
  = String.prefix sub (String c s) || Str.contains sub s.
Proof. reflexivity. Qed.

(** [sub in s] is containment as a contiguous block. *)
Lemma contains_spec sub s :
  Str.contains sub s = true ↔ Str.substring_of sub s.
Proof.
  unfold Str.substring_of. induction s as [|c s IH].
  - rewrite contains_empty, prefix_spec. split.
    + intros [b Hb]. exists "", b. by rewrite app_empty_l.
    + intros ([|x a] & b & Hb); [|by rewrite app_cons in Hb].
      exists b. by rewrite app_empty_l in Hb.
  - rewrite contains_String, orb_true_iff, prefix_spec, IH. split.
    + intros [[b Hb]|(a & b & Hb)].
      * exists "", b. by rewrite app_empty_l.
      * exists (String c a), b. by rewrite app_cons, Hb.
    + intros ([|x a] & b & Hb).
      * left. exists b. by rewrite app_empty_l in Hb.
      * right. rewrite app_cons in Hb. injection Hb as -> Hb. by exists a, b.
Qed.

Lemma lower_char_idemp c : Str.lower_char (Str.lower_char c) = Str.lower_char c.
Proof. by destruct c as [[] [] [] [] [] [] [] []]. Qed.

Lemma lower_idemp s : Str.lower (Str.lower s) = Str.lower s.
Proof.
  induction s as [|c s IH]; [done|]. simpl. by rewrite lower_char_idemp, IH.
Qed.

Lemma truthy_true s : Str.truthy s = true ↔ s ≠ "".
Proof. by destruct s. Qed.

(* ===================================================================== *)
(** * Rule matching *)
(* ===================================================================== *)

Section Matching.

Variable urlparse_netloc : string → option string.

Lemma any_pattern_in_spec redirect_domains domain_lower :
  any_pattern_in redirect_domains domain_lower = true ↔
  ∃ pattern, pattern ∈ redirect_domains
             ∧ Str.substring_of (Str.lower pattern) domain_lower.
Proof.
  induction redirect_domains as [|p ps IH]; simpl.
  - split; [done|]. intros (? & H & _). by apply elem_of_nil in H.
  - destruct (Str.contains (Str.lower p) domain_lower) eqn:Hc.
    + split; [|done]. intros _. exists p. split; [left|].
      by apply contains_spec.
    + rewrite IH. split.
      * intros (q & Hq & Hsub). exists q. split; [by right|done].
      * intros (q & Hq & Hsub). apply elem_of_cons in Hq as [->|Hq].
        -- apply contains_spec in Hsub. congruence.
        -- by exists q.
Qed.

Lemma matches_redirect_domain_spec url redirect_domains :
  matches_redirect_domain urlparse_netloc url redirect_domains = true ↔
  url ≠ "" ∧
  ∃ host pattern,
    urlparse_netloc url = Some host ∧ host ≠ ""
    ∧ pattern ∈ redirect_domains
    ∧ Str.substring_of (Str.lower pattern) (Str.lower host).
Proof.
  unfold matches_redirect_domain, extract_domain.
  destruct url as [|c url]; simpl.
  { split; [done|]. by intros [? _]. }
  destruct (urlparse_netloc (String c url)) as [host|]; cycle 1.
  { split; [done|]. by intros (_ & ? & ? & ? & _). }
  destruct host as [|h host]; simpl.
  { split; [done|]. intros (_ & ? & ? & [= <-] & ? & _). done. }
  rewrite any_pattern_in_spec.
  change (String (Str.lower_char (Str.lower_char h))
            (Str.lower (Str.lower host)))
    with (Str.lower (Str.lower (String h host))).
  rewrite lower_idemp. split.
  - intros (p & Hp & Hsub). split; [done|]. by exists (String h host), p.
  - intros (_ & host' & p & [= <-] & _ & Hp & Hsub). by exists p.
Qed.

Lemma find_matching_type_rule_cons file_path rule rest :
  find_matching_type_rule file_path (rule :: rest)
  = if decide (get_file_extension file_path ∈ TypeRule.extensions rule)
    then Some rule else find_matching_type_rule file_path rest.
Proof. reflexivity. Qed.

Lemma find_matching_type_rule_spec file_path type_rules :
  match find_matching_type_rule file_path type_rules with
  | Some rule =>
      ∃ earlier later,
        type_rules = earlier ++ rule :: later
        ∧ get_file_extension file_path ∈ TypeRule.extensions rule
        ∧ ∀ r, r ∈ earlier →
               get_file_extension file_path ∉ TypeRule.extensions r
  | None =>
      ∀ r, r ∈ type_rules →
           get_file_extension file_path ∉ TypeRule.extensions r
  end.
Proof.
  induction type_rules as [|rule rest IH].
  - simpl. intros r Hr. by apply elem_of_nil in Hr.
  - rewrite find_matching_type_rule_cons. case_decide as Hext.
    + exists [], rest. split_and!; [done..|].
      intros r Hr. by apply elem_of_nil in Hr.
    + destruct (find_matching_type_rule file_path rest) as [found|].
      * destruct IH as (earlier & later & -> & Hin & Hnot).
        exists (rule :: earlier), later. split_and!; [done..|].
        intros r [->|Hr]%elem_of_cons; auto.
      * intros r [->|Hr]%elem_of_cons; auto.
Qed.

End Matching.

(* ===================================================================== *)
(** * Paths and the names tried by [generate_unique_filename] *)
(* ===================================================================== *)

Lemma has_char_app c a b :
  Str.has_char c (a +:+ b) = Str.has_char c a || Str.has_char c b.
Proof.
  induction a as [|x a IH]; [done|].
  rewrite app_cons. simpl. by rewrite IH, orb_assoc.
Qed.

Lemma split_not_nil sep s : Str.split sep s ≠ [].
Proof.
  induction s as [|a s IH]; simpl; [done|].
  destruct (Ascii.eqb a sep); [done|]. by destruct (Str.split sep s).
Qed.

(** No piece of a split holds the separator. *)
Lemma split_pieces sep s w :
  w ∈ Str.split sep s → Str.has_char sep w = false.
Proof.
  revert w. induction s as [|a s IH]; intros w; simpl.
  - by intros ->%list_elem_of_singleton.
  - destruct (Ascii.eqb a sep) eqn:Ha.
    + intros [->|Hw]%elem_of_cons; [done|]. by apply IH.
    + destruct (Str.split sep s) as [|w0 ws] eqn:Hs.
      { by destruct (split_not_nil sep s). }
      intros [->|Hw]%elem_of_cons.
      * simpl. rewrite Ha. apply IH. by left.
      * apply IH. by right.
Qed.

(** A string without the separator is its own single piece. *)
Lemma split_whole sep s :
  Str.has_char sep s = false → Str.split sep s = [s].
Proof.
  induction s as [|a s IH]; simpl; [done|].
  intros [Ha Hs]%orb_false_elim. rewrite Ha. by rewrite (IH Hs).
Qed.

Lemma has_char_take c n s :
  Str.has_char c s = false → Str.has_char c (Str.take n s) = false.
Proof.
  revert s. induction n as [|n IH]; intros [|a s]; simpl; try done.
  intros [Ha Hs]%orb_false_elim. by rewrite Ha, (IH _ Hs).
Qed.

Lemma has_char_drop c n s :
  Str.has_char c s = false → Str.has_char c (Str.drop n s) = false.
Proof.
  revert s. induction n as [|n IH]; intros [|a s]; simpl; try done.
  intros [Ha Hs]%orb_false_elim. by apply IH.
Qed.

Lemma take_drop s n : Str.take n s +:+ Str.drop n s = s.
Proof.
  revert s. induction n as [|n IH]; intros [|a s]; simpl; try done.
  by rewrite app_cons, IH.
Qed.

Lemma components_clean rel w : w ∈ components rel → clean w.
Proof.
  unfold components. intros [[??] Hw]%list_elem_of_filter.
  split; [|done]. by eapply split_pieces.
Qed.

Lemma parse_path_clean s w : w ∈ parts (parse_path s) → clean w.
Proof.
  unfold parse_path. destruct (splitroot s) as [r rel]. simpl.
  apply components_clean.
Qed.

Lemma last_elem {A} (l : list A) d : l = [] ∧ List.last l d = d ∨ List.last l d ∈ l.
Proof.
  induction l as [|x l IH]; [by left|]. right.
  destruct l as [|y l]; [by left|].
  destruct IH as [[? _]|IH]; [done|]. by right.
Qed.

Lemma path_name_parse_no_slash s :
  Str.has_char slash (path_name (parse_path s)) = false.
Proof.
  unfold path_name.
  destruct (last_elem (parts (parse_path s)) "") as [[_ ->]|Hin]; [done|].
  by apply parse_path_clean in Hin as [? _].
Qed.

Lemma stem_suffix p : stem p +:+ suffix p = path_name p.
Proof.
  unfold stem, suffix, Str.slice_to, Str.slice_from.
  destruct (_ && _); [apply take_drop | apply app_empty_r].
Qed.

Lemma stem_parse_no_slash s : Str.has_char slash (stem (parse_path s)) = false.
Proof.
  unfold stem, Str.slice_to. pose proof (path_name_parse_no_slash s).
  destruct (_ && _); [by apply has_char_take | done].
Qed.

Lemma suffix_parse_no_slash s :
  Str.has_char slash (suffix (parse_path s)) = false.
Proof.
  unfold suffix, Str.slice_from. pose proof (path_name_parse_no_slash s).
  destruct (_ && _); [by apply has_char_drop | done].
Qed.

Lemma pretty_N_go_no_slash x s :
  Str.has_char slash s = false → Str.has_char slash (pretty_N_go x s) = false.
Proof.
  revert s. induction (N.lt_wf_0 x) as [x _ IH]. intros s Hs.
  destruct (decide (x = 0)%N) as [->|Hx]; [done|].
  rewrite pretty_N_go_step by lia. apply IH.
  - apply N.div_lt; lia.
  - simpl. rewrite Hs, orb_false_r. unfold pretty_N_char.
    by repeat case_match.
Qed.

(** The decimal numeral of a counter has no separator. *)
Lemma pretty_no_slash (k : N) : Str.has_char slash (pretty k) = false.
Proof.
  unfold pretty, pretty_N. case_decide; [done|].
  by apply pretty_N_go_no_slash.
Qed.

Lemma parse_path_component s : clean s → parse_path s = mkPath "" [s].
Proof.
  intros (Hs & Hne & Hdot). unfold parse_path, splitroot, Str.startswith.
  destruct s as [|a s]; [done|].
  simpl in Hs. apply orb_false_elim in Hs as [Ha Hs].
  assert (String.prefix "/" (String a s) = false) as ->.
  { destruct (String.prefix "/" (String a s)) eqn:Hp; [|done].
    apply prefix_spec in Hp as [b Hb]. rewrite app_cons in Hb.
    injection Hb as -> _. done. }
  unfold components. rewrite split_whole by (simpl; by rewrite Ha, Hs).
  rewrite filter_cons_True by done. done.
Qed.

Lemma joinpath_component d s :
  clean s → joinpath d s = mkPath (root d) (parts d ++ [s]).
Proof. intros Hs. unfold joinpath. by rewrite parse_path_component. Qed.

Lemma parent_joinpath_component d s : clean s → parent (joinpath d s) = d.
Proof.
  intros Hs. rewrite joinpath_component by done. unfold parent. simpl.
  rewrite removelast_last. by destruct d.
Qed.

Lemma numbered_clean stem suffix k :
  Str.has_char slash stem = false → Str.has_char slash suffix = false →
  clean (numbered stem suffix k).
Proof.
  intros Hstem Hsuffix. unfold numbered.
  assert (Str.has_char "_" (stem +:+ "_" +:+ pretty k +:+ suffix) = true)
    as Hunderscore.
  { rewrite !has_char_app. simpl. by rewrite orb_true_r. }
  split_and!.
  - rewrite !has_char_app, Hstem, Hsuffix, pretty_no_slash. done.
  - intros Heq. by rewrite Heq in Hunderscore.
  - intros Heq. by rewrite Heq in Hunderscore.
Qed.

Lemma numbered_inj stem suffix : Inj (=) (=) (numbered stem suffix).
Proof.
  intros k1 k2 Heq. unfold numbered in Heq.
  apply (inj (String.app stem)), (inj (String.app "_")) in Heq.
  apply app_inj_r in Heq. by apply (inj pretty).
Qed.

Lemma candidate_eq destination original_name k :
  candidate destination original_name k
  = mkPath (root destination)
      (parts destination
       ++ [numbered (stem (parse_path original_name))
                    (suffix (parse_path original_name)) k]).
Proof.
  unfold candidate. apply joinpath_component, numbered_clean.
  - apply stem_parse_no_slash.
  - apply suffix_parse_no_slash.
Qed.

(** Distinct counters give distinct paths. *)
Lemma candidate_inj destination original_name :
  Inj (=) (=) (candidate destination original_name).
Proof.
  intros k1 k2. rewrite !candidate_eq. intros [= Heq].
  apply app_inj_1 in Heq as [_ [= Heq]]; [|done].
  by apply numbered_inj in Heq.
Qed.

Lemma parent_candidate destination original_name k :
  parent (candidate destination original_name k) = destination.
Proof.
  apply parent_joinpath_component, numbered_clean.
  - apply stem_parse_no_slash.
  - apply suffix_parse_no_slash.
Qed.

(** Among [size fs + 1] consecutive counters one names a free path. *)
Lemma free_counter_exists (fs : gmap Path node) (f : N → Path) (c : N) :
  Inj (=) (=) f →
  ∃ k, (c ≤ k ≤ c + N.of_nat (size fs))%N ∧ fs !! f k = None.
Proof.
  intros Hinj.
  set (ks := (λ i : nat, (c + N.of_nat i)%N) <$> seq 0 (S (size fs))).
  destruct (decide (Forall (λ k, f k ∈ dom fs) ks)) as [Hall|Hex].
  - exfalso.
    assert (NoDup (f <$> ks)) as Hnd.
    { apply NoDup_fmap_2; [done|]. apply NoDup_fmap_2; [|apply NoDup_seq].
      intros i j. lia. }
    assert (list_to_set (f <$> ks) ⊆ dom fs) as Hsub.
    { intros p [q [-> Hq]]%elem_of_list_to_set%list_elem_of_fmap.
      by eapply Forall_forall in Hall. }
    apply subseteq_size in Hsub.
    rewrite size_list_to_set, size_dom in Hsub by done.
    unfold ks in Hsub. rewrite !length_fmap, length_seq in Hsub. lia.
  - apply not_Forall_Exists in Hex; [|intros k; apply _].
    apply Exists_exists in Hex as (k & Hk & Hfree).
    exists k. split.
    + apply list_elem_of_fmap in Hk as (i & -> & Hi).
      apply elem_of_seq in Hi. lia.
    + by apply not_elem_of_dom.
Qed.

(* ===================================================================== *)
(** * The system calls *)
(* ===================================================================== *)

Lemma bind_return {A B} (m : M A) (k : A → M B) w a w' :
  m w = (Return a, w') → bind m k w = k a w'.
Proof. unfold bind. by intros ->. Qed.

Lemma bind_raise {A B} (m : M A) (k : A → M B) w e w' :
  m w = (Raise e, w') → bind m k w = (Raise e, w').
Proof. unfold bind. by intros ->. Qed.

Lemma bind_out_of_fuel {A B} (m : M A) (k : A → M B) w w' :
  m w = (OutOfFuel, w') → bind m k w = (OutOfFuel, w').
Proof. unfold bind. by intros ->. Qed.

Lemma try_return {A} (body : M A) handler w a w' :
  body w = (Return a, w') → try_except body handler w = (Return a, w').
Proof. unfold try_except. by intros ->. Qed.

Lemma try_raise {A} (body : M A) handler w e w' :
  body w = (Raise e, w') → try_except body handler w = handler e w'.
Proof. unfold try_except. by intros ->. Qed.

Lemma try_out_of_fuel {A} (body : M A) handler w w' :
  body w = (OutOfFuel, w') → try_except body handler w = (OutOfFuel, w').
Proof. unfold try_except. by intros ->. Qed.

Lemma world_eta w : mkWorld (files w) (log w) = w.
Proof. by destruct w. Qed.

Lemma extends_refl w : extends w w.
Proof. by split. Qed.

Lemma extends_trans w1 w2 w3 : extends w1 w2 → extends w2 w3 → extends w1 w3.
Proof. intros [? H12] [? H23]. split; [by etrans|]. by rewrite H23. Qed.

Lemma extends_lookup w w' q n :
  extends w w' → files w !! q = Some n → files w' !! q = Some n.
Proof. intros [Hsub _] Hq. by eapply lookup_weaken. Qed.

Lemma get_download_source_spec file_path w :
  get_download_source file_path w
  = (Return (download_source (files w) file_path), w).
Proof.
  unfold get_download_source, try_except, bind, read_where_froms,
    download_source, ret.
  destruct (files w !! file_path) as [n|]; [|done].
  destruct (attr_where_froms n) as [| |[|url urls]]; done.
Qed.

Lemma path_exists_spec p w :
  path_exists p w = (Return (bool_decide (is_Some (files w !! p))), w).
Proof. reflexivity. Qed.

(** [is_file_ready] answers [True] exactly on a stable size, and leaves
    behind what the wait left behind. *)
Lemma stat_st_size_spec p w n :
  files w !! p = Some n → stat_st_size p w = (Return (st_size n), w).
Proof. unfold stat_st_size. by intros ->. Qed.

Lemma is_file_ready_spec during_wait file_path w :
  is_file_ready during_wait file_path w
  = (Return (bool_decide
               (stable_size (files w) (during_wait (files w)) file_path)),
     mkWorld (match files w !! file_path with
              | Some _ => during_wait (files w)
              | None => files w
              end) (log w)).
Proof.
  unfold is_file_ready. destruct (files w !! file_path) as [n1|] eqn:H1.
  - destruct (during_wait (files w) !! file_path) as [n2|] eqn:H2.
    + erewrite try_return; [done|].
      erewrite bind_return by apply path_exists_spec.
      rewrite H1, bool_decide_eq_true_2 by eauto. simpl.
      erewrite bind_return by by apply stat_st_size_spec.
      erewrite bind_return by reflexivity.
      erewrite bind_return by apply path_exists_spec. simpl.
      rewrite H2, bool_decide_eq_true_2 by eauto. simpl.
      erewrite bind_return by by apply stat_st_size_spec.
      unfold ret. do 2 f_equal.
      destruct (Z.eqb_spec (st_size n1) (st_size n2)) as [Heq|Hne]; symmetry.
      * apply bool_decide_eq_true_2. by exists n1, n2.
      * apply bool_decide_eq_false_2.
        intros (x1 & x2 & Hx1 & Hx2 & ?). congruence.
    + erewrite try_return; [done|].
      erewrite bind_return by apply path_exists_spec.
      rewrite H1, bool_decide_eq_true_2 by eauto. simpl.
      erewrite bind_return by by apply stat_st_size_spec.
      erewrite bind_return by reflexivity.
      erewrite bind_return by apply path_exists_spec. simpl.
      rewrite H2, bool_decide_eq_false_2 by (by intros [? ?]). simpl.
      unfold ret. do 2 f_equal. symmetry.
      apply bool_decide_eq_false_2. intros (? & ? & _ & ? & _). congruence.
  - erewrite try_return; [done|].
    erewrite bind_return by apply path_exists_spec.
    rewrite H1, bool_decide_eq_false_2 by (by intros [? ?]). simpl.
    unfold ret. rewrite world_eta. do 2 f_equal. symmetry.
    apply bool_decide_eq_false_2. intros (? & ? & ? & _). congruence.
Qed.

Lemma os_mkdir_cases p w :
  (∃ e, os_mkdir p w = (Raise e, w))
  ∨ (files w !! p = None
     ∧ os_mkdir p w
       = (Return tt, mkWorld (<[p := new_directory]> (files w)) (log w))).
Proof.
  unfold os_mkdir. destruct (files w !! p); [eauto|].
  destruct (files w !! parent p) as [d|]; [|eauto].
  destruct (node_is_dir d); eauto.
Qed.

Lemma mkdir_guard_extends (exist_ok : bool) self e w o w' :
  (let* d := is_dir self in
   if negb exist_ok || negb d then raise e else ret tt) w = (o, w') →
  extends w w' ∧ o ≠ OutOfFuel.
Proof.
  unfold bind, is_dir, read, raise, ret.
  destruct (_ || _); intros [= <- <-]; (split; [apply extends_refl | done]).
Qed.

Lemma mkdir_single_extends exist_ok self w o w' :
  mkdir_single exist_ok self w = (o, w') → extends w w' ∧ o ≠ OutOfFuel.
Proof.
  unfold mkdir_single, try_except.
  destruct (os_mkdir_cases self w) as [[e ->]|[Hfree ->]].
  - destruct e; try apply mkdir_guard_extends.
    intros [= <- <-]. split; [apply extends_refl | done].
  - intros [= <- <-]. split; [|done]. split; [|done].
    simpl. by apply insert_subseteq.
Qed.

Lemma mkdir_parents_extends r rev_parts exist_ok w o w' :
  mkdir_parents r rev_parts exist_ok w = (o, w') →
  extends w w' ∧ o ≠ OutOfFuel.
Proof.
  revert exist_ok w o w'.
  induction rev_parts as [|x up IH]; intros exist_ok w o w'; simpl;
    unfold try_except.
  - destruct (os_mkdir_cases (mkPath r []) w) as [[e ->]|[Hfree ->]].
    + destruct e; try apply mkdir_guard_extends.
      intros [= <- <-]. split; [apply extends_refl | done].
    + intros [= <- <-]. split; [|done]. split; [|done].
      simpl. by apply insert_subseteq.
  - destruct (os_mkdir_cases (mkPath r (rev up ++ [x])) w)
      as [[e ->]|[Hfree ->]].
    + destruct e; try apply mkdir_guard_extends.
      unfold bind.
      destruct (mkdir_parents r up true w) as [[[]| |] w1] eqn:Hup;
        apply IH in Hup as [Hext Hfuel].
      * intros [Hext' ?]%mkdir_single_extends. split; [|done].
        by eapply extends_trans.
      * by intros [= <- <-].
      * done.
    + intros [= <- <-]. split; [|done]. split; [|done].
      simpl. by apply insert_subseteq.
Qed.

(** On a directory that is there, [ensure_directory] does nothing. *)
Lemma ensure_directory_existing d w :
  directory (files w) d → ensure_directory d w = (Return tt, w).
Proof.
  intros (n & Hn & Hdir). unfold ensure_directory.
  assert (mkPath (root d) (rev (rev (parts d))) = d) as Hself.
  { rewrite rev_involutive. by destruct d. }
  destruct (rev (parts d)) as [|x up] eqn:Hrev; simpl in *;
    unfold try_except, os_mkdir; rewrite Hself, Hn;
    unfold bind, is_dir, read, ret; simpl; by rewrite Hn, Hdir.
Qed.

Lemma ensure_directory_extends d w o w' :
  ensure_directory d w = (o, w') → extends w w' ∧ o ≠ OutOfFuel.
Proof. apply mkdir_parents_extends. Qed.

(* ===================================================================== *)
(** * [generate_unique_filename] and [move_file] *)
(* ===================================================================== *)

Lemma unique_loop_step fuel destination original_name c w :
  unique_loop (S fuel) destination (stem (parse_path original_name))
    (suffix (parse_path original_name)) c w
  = match files w !! candidate destination original_name c with
    | None => (Return (candidate destination original_name c), w)
    | Some _ =>
        unique_loop fuel destination (stem (parse_path original_name))
          (suffix (parse_path original_name)) (c + 1)%N w
    end.
Proof.
  simpl. erewrite bind_return by apply path_exists_spec.
  fold (numbered (stem (parse_path original_name))
          (suffix (parse_path original_name)) c).
  fold (candidate destination original_name c).
  destruct (files w !! candidate destination original_name c) eqn:Hc.
  - by rewrite bool_decide_eq_true_2 by eauto.
  - by rewrite bool_decide_eq_false_2 by (by intros [? ?]).
Qed.

(** With a free counter within reach of the fuel, the loop returns the
    path of the least free counter. *)
Lemma unique_loop_least fuel destination original_name w : ∀ c,
  (∃ k, (c ≤ k < c + N.of_nat fuel)%N
        ∧ files w !! candidate destination original_name k = None) →
  ∃ k, (c ≤ k < c + N.of_nat fuel)%N
       ∧ files w !! candidate destination original_name k = None
       ∧ (∀ j, (c ≤ j < k)%N →
               is_Some (files w !! candidate destination original_name j))
       ∧ unique_loop fuel destination (stem (parse_path original_name))
           (suffix (parse_path original_name)) c w
         = (Return (candidate destination original_name k), w).
Proof.
  induction fuel as [|fuel IH]; intros c (k0 & Hk0 & Hfree0); [lia|].
  rewrite unique_loop_step.
  destruct (files w !! candidate destination original_name c) as [n|] eqn:Hc.
  - assert (k0 ≠ c) by congruence.
    destruct (IH (c + 1)%N) as (k & Hk & Hfree & Hleast & Hrun).
    { exists k0. split; [lia|done]. }
    exists k. split; [lia|]. split; [done|]. split; [|done].
    intros j Hj. destruct (decide (j = c)) as [->|]; [eauto|].
    apply Hleast. lia.
  - exists c. split; [lia|]. split; [done|]. split; [|done]. intros j Hj. lia.
Qed.

(** Whatever the fuel, the loop writes nothing, raises nothing, and
    returns only a numbered path that is not there. *)
Lemma unique_loop_sound fuel destination stem suffix : ∀ c w o w',
  unique_loop fuel destination stem suffix c w = (o, w') →
  w' = w ∧ match o with
           | Return target =>
               files w !! target = None
               ∧ ∃ k, (c ≤ k)%N
                      ∧ target = joinpath destination (numbered stem suffix k)
           | Raise _ => False
           | OutOfFuel => True
           end.
Proof.
  induction fuel as [|fuel IH]; intros c w o w'; simpl.
  - by intros [= <- <-].
  - erewrite bind_return by apply path_exists_spec.
    case_bool_decide as Htaken; simpl.
    + intros Hrun. apply IH in Hrun as [-> Ho]. split; [done|].
      destruct o as [target| |]; [|done..].
      destruct Ho as (Hfree & k & Hk & ->). split; [done|].
      exists k. split; [lia|done].
    + intros [= <- <-]. split; [done|]. split.
      * by apply eq_None_not_Some.
      * exists c. split; [lia|done].
Qed.

Lemma generate_unique_filename_sound fuel destination original_name w o w' :
  generate_unique_filename fuel destination original_name w = (o, w') →
  w' = w ∧ match o with
           | Return target =>
               files w !! target = None
               ∧ (target = joinpath destination original_name
                  ∨ ∃ k, (1 ≤ k)%N
                         ∧ target = candidate destination original_name k)
           | Raise _ => False
           | OutOfFuel => True
           end.
Proof.
  unfold generate_unique_filename.
  erewrite bind_return by apply path_exists_spec.
  case_bool_decide as Htaken; simpl.
  - intros Hrun. apply unique_loop_sound in Hrun as [-> Ho]. split; [done|].
    destruct o as [target| |]; [|done..].
    destruct Ho as (Hfree & k & Hk & ->). split; [done|]. right. by exists k.
  - intros [= <- <-]. split; [done|]. split; [|by left].
    by apply eq_None_not_Some.
Qed.

(** With more fuel than the file system has entries, the result is the
    plain name when it is free, and the least free numbered name
    otherwise. *)
Lemma generate_unique_filename_spec fuel destination original_name w :
  (size (files w) < fuel)%nat →
  ∃ target,
    generate_unique_filename fuel destination original_name w
    = (Return target, w)
    ∧ files w !! target = None
    ∧ (files w !! joinpath destination original_name = None →
       target = joinpath destination original_name)
    ∧ (is_Some (files w !! joinpath destination original_name) →
       ∃ k, (1 ≤ k)%N
            ∧ target = candidate destination original_name k
            ∧ ∀ j, (1 ≤ j < k)%N →
                   is_Some (files w !! candidate destination original_name j)).
Proof.
  intros Hfuel. unfold generate_unique_filename.
  erewrite bind_return by apply path_exists_spec.
  destruct (files w !! joinpath destination original_name) as [n|] eqn:Hplain.
  - rewrite bool_decide_eq_true_2 by eauto. simpl.
    destruct (unique_loop_least fuel destination original_name w 1%N)
      as (k & Hk & Hfree & Hleast & Hrun).
    { destruct (free_counter_exists (files w)
                  (candidate destination original_name) 1%N
                  (candidate_inj destination original_name))
        as (k & Hk & Hfree).
      exists k. split; [lia|done]. }
    exists (candidate destination original_name k).
    split; [done|]. split; [done|]. split; [done|].
    intros _. exists k. split; [lia|]. split; [done|].
    intros j Hj. apply Hleast. lia.
  - rewrite bool_decide_eq_false_2 by (by intros [? ?]). simpl.
    exists (joinpath destination original_name).
    split; [done|]. split; [done|]. split; [done|]. by intros [? ?].
Qed.

Lemma shutil_move_fresh src dst w :
  files w !! dst = None → shutil_move src dst w = os_rename src dst w.
Proof.
  intros Hdst. unfold shutil_move.
  erewrite bind_return by reflexivity. by rewrite Hdst.
Qed.

(** Renaming a regular file to a free name moves its one entry, or
    raises and changes nothing. *)
Lemma os_rename_file_fresh src dst w n :
  files w !! src = Some n → node_is_dir n = false →
  files w !! dst = None →
  (∃ e, os_rename src dst w = (Raise e, w))
  ∨ (directory (files w) (parent dst)
     ∧ os_rename src dst w
       = (Return tt, mkWorld (<[dst := n]> (delete src (files w))) (log w))).
Proof.
  intros Hsrc Hfile Hdst. unfold os_rename. simpl. rewrite Hsrc.
  destruct (files w !! parent dst) as [d|] eqn:Hparent; [|eauto].
  destruct (node_is_dir d) eqn:Hd; simpl; [|eauto].
  rewrite decide_False by congruence. rewrite Hfile, Hdst.
  right. split; [by exists d|done].
Qed.

Lemma logger_spec lvl msg w :
  logger lvl msg w = (Return tt, mkWorld (files w) (log w ++ [(lvl, msg)])).
Proof. reflexivity. Qed.

(** [move_file] of a regular file leaves every other entry as it was. *)
Lemma move_file_frame fuel source destination_dir w o w' :
  regular_file (files w) source →
  move_file fuel source destination_dir w = (o, w') →
  ∀ q x, q ≠ source → files w !! q = Some x → files w' !! q = Some x.
Proof.
  intros (n & Hsrc & Hfile) Hrun q x Hq Hx. unfold move_file in Hrun.
  destruct (ensure_directory destination_dir w) as [o1 w1] eqn:Hdir.
  pose proof (ensure_directory_extends _ _ _ _ Hdir) as [Hext Hfuel1].
  pose proof (extends_lookup _ _ _ _ Hext Hx) as Hx1.
  pose proof (extends_lookup _ _ _ _ Hext Hsrc) as Hsrc1.
  destruct o1 as [[]|e|]; [| |done].
  - (* the directory is there *)
    destruct (generate_unique_filename fuel destination_dir
                (path_name source) w1) as [o2 w2] eqn:Hgen.
    pose proof (generate_unique_filename_sound _ _ _ _ _ _ Hgen)
      as [-> Hfresh].
    destruct o2 as [target|e|]; [|done|].
    + destruct Hfresh as [Hfresh _].
      pose proof (shutil_move_fresh source target w1 Hfresh) as Hmove.
      destruct (os_rename_file_fresh source target w1 n Hsrc1 Hfile Hfresh)
        as [[e He]|[_ Hok]].
      * rewrite He in Hmove.
        erewrite try_raise in Hrun; cycle 1.
        { erewrite bind_return by exact Hdir.
          erewrite bind_return by exact Hgen.
          erewrite bind_raise by exact Hmove. done. }
        unfold bind, logger, ret in Hrun. by injection Hrun as <- <-.
      * rewrite Hok in Hmove.
        erewrite try_return in Hrun; cycle 1.
        { erewrite bind_return by exact Hdir.
          erewrite bind_return by exact Hgen.
          erewrite bind_return by exact Hmove.
          erewrite bind_return by apply logger_spec. done. }
        injection Hrun as <- <-. simpl.
        rewrite lookup_insert_ne by congruence.
        by rewrite lookup_delete_ne.
    + erewrite try_out_of_fuel in Hrun; cycle 1.
      { erewrite bind_return by exact Hdir.
        erewrite bind_out_of_fuel by exact Hgen. done. }
      by injection Hrun as <- <-.
  - erewrite try_raise in Hrun; cycle 1.
    { erewrite bind_raise by exact Hdir. done. }
    unfold bind, logger, ret in Hrun. by injection Hrun as <- <-.
Qed.

(** When [move_file] answers [True], the file is at the plain name or at
    a numbered name in the destination, which was free, and no longer at
    its source. *)
Lemma move_file_moved fuel source destination_dir w w' n :
  files w !! source = Some n → node_is_dir n = false →
  move_file fuel source destination_dir w = (Return true, w') →
  ∃ target,
    (target = joinpath destination_dir (path_name source)
     ∨ ∃ k, (1 ≤ k)%N
            ∧ target = candidate destination_dir (path_name source) k)
    ∧ files w !! target = None
    ∧ files w' !! target = Some n
    ∧ files w' !! source = None.
Proof.
  intros Hsrc Hfile Hrun. unfold move_file in Hrun.
  destruct (ensure_directory destination_dir w) as [o1 w1] eqn:Hdir.
  pose proof (ensure_directory_extends _ _ _ _ Hdir) as [Hext Hfuel1].
  pose proof (extends_lookup _ _ _ _ Hext Hsrc) as Hsrc1.
  destruct o1 as [[]|e|]; [| |done]; cycle 1.
  { erewrite try_raise in Hrun; cycle 1.
    { erewrite bind_raise by exact Hdir. done. }
    unfold bind, logger, ret in Hrun. done. }
  destruct (generate_unique_filename fuel destination_dir
              (path_name source) w1) as [o2 w2] eqn:Hgen.
  pose proof (generate_unique_filename_sound _ _ _ _ _ _ Hgen) as [-> Ho2].
  destruct o2 as [target|e|]; [|done|]; cycle 1.
  { erewrite try_out_of_fuel in Hrun; [done|].
    erewrite bind_return by exact Hdir.
    erewrite bind_out_of_fuel by exact Hgen. done. }
  destruct Ho2 as [Hfresh Hshape].
  pose proof (shutil_move_fresh source target w1 Hfresh) as Hmove.
  destruct (os_rename_file_fresh source target w1 n Hsrc1 Hfile Hfresh)
    as [[e He]|[_ Hok]].
  { rewrite He in Hmove. erewrite try_raise in Hrun; cycle 1.
    { erewrite bind_return by exact Hdir.
      erewrite bind_return by exact Hgen.
      erewrite bind_raise by exact Hmove. done. }
    unfold bind, logger, ret in Hrun. done. }
  rewrite Hok in Hmove. erewrite try_return in Hrun; cycle 1.
  { erewrite bind_return by exact Hdir.
    erewrite bind_return by exact Hgen.
    erewrite bind_return by exact Hmove.
    erewrite bind_return by apply logger_spec. done. }
  injection Hrun as <-. simpl. exists target.
  split; [done|]. split.
  { destruct (files w !! target) as [x|] eqn:Hx; [|done].
    pose proof (extends_lookup _ _ _ _ Hext Hx). congruence. }
  split; [by rewrite lookup_insert_eq|].
  rewrite lookup_insert_ne by congruence. by rewrite lookup_delete_eq.
Qed.

(** Into a directory that already has the name: the file goes to the
    least free numbered name. *)
Lemma move_file_collision fuel source destination_dir w n :
  files w !! source = Some n → node_is_dir n = false →
  directory (files w) destination_dir →
  is_Some (files w !! joinpath destination_dir (path_name source)) →
  (size (files w) < fuel)%nat →
  ∃ k, (1 ≤ k)%N
       ∧ (∀ j, (1 ≤ j < k)%N →
               is_Some (files w
                        !! candidate destination_dir (path_name source) j))
       ∧ files w !! candidate destination_dir (path_name source) k = None
       ∧ move_file fuel source destination_dir w
         = (Return true,
            mkWorld
              (<[candidate destination_dir (path_name source) k := n]>
                 (delete source (files w)))
              (log w ++ [(INFO,
                          MsgMoved (path_name source)
                            (candidate destination_dir (path_name source) k))])).
Proof.
  intros Hsrc Hfile Hdir Htaken Hfuel.
  destruct (generate_unique_filename_spec fuel destination_dir
              (path_name source) w Hfuel)
    as (target & Hgen & Hfresh & _ & Hnumbered).
  destruct (Hnumbered Htaken) as (k & Hk & -> & Hleast).
  exists k. split; [done|]. split; [done|]. split; [done|].
  unfold move_file. erewrite try_return; [done|].
  erewrite bind_return by by apply ensure_directory_existing.
  erewrite bind_return by exact Hgen.
  rewrite <- (parent_candidate destination_dir (path_name source) k) in Hdir.
  destruct (os_rename_file_fresh source _ w n Hsrc Hfile Hfresh)
    as [[e He]|[_ Hok]].
  { exfalso. unfold os_rename in He. rewrite Hsrc in He.
    destruct Hdir as (d & Hd & Hdd). simpl in He. rewrite Hd, Hdd in He.
    simpl in He. rewrite decide_False in He by congruence.
    rewrite Hfile, Hfresh in He. done. }
  erewrite bind_return; cycle 1.
  { rewrite shutil_move_fresh by done. exact Hok. }
  erewrite bind_return by apply logger_spec. done.
Qed.

(* ===================================================================== *)
(** * [process_file] *)
(* ===================================================================== *)

Section ProcessFile.

Variable urlparse_netloc : string → option string.
Variable fuel : nat.
Variable during_wait : gmap Path node → gmap Path node.

Lemma is_dir_spec p w :
  is_dir p w
  = (Return (match files w !! p with
             | Some n => node_is_dir n
             | None => false
             end), w).
Proof. reflexivity. Qed.

(** Directories and skipped names are left alone. *)
Lemma process_file_skips file_path rule w :
  directory (files w) file_path
  ∨ skipped_name (path_name file_path) = true →
  process_file urlparse_netloc fuel during_wait file_path rule w
  = (Return tt, w).
Proof.
  intros Hskip. unfold process_file.
  erewrite bind_return by apply is_dir_spec.
  destruct (files w !! file_path) as [n|] eqn:Hn.
  - destruct (node_is_dir n) eqn:Hd; [done|].
    destruct Hskip as [(n' & Hn' & Hd')|Hskip]; [congruence|].
    unfold skipped_name in Hskip.
    destruct (Str.startswith _ _ || Str.endswith _ _); [done|].
    simpl in Hskip. by rewrite Hskip.
  - destruct Hskip as [(n' & Hn' & Hd')|Hskip]; [congruence|].
    unfold skipped_name in Hskip.
    destruct (Str.startswith _ _ || Str.endswith _ _); [done|].
    simpl in Hskip. by rewrite Hskip.
Qed.

(** A file whose size is not stable is left alone. *)
Lemma process_file_not_ready file_path rule w :
  ¬ stable_size (files w) (during_wait (files w)) file_path →
  ∃ w',
    process_file urlparse_netloc fuel during_wait file_path rule w
    = (Return tt, w')
    ∧ (files w' = files w ∨ files w' = during_wait (files w)).
Proof.
  intros Hunstable.
  destruct (decide (directory (files w) file_path
                    ∨ skipped_name (path_name file_path) = true))
    as [Hskip|Hchecked].
  { exists w. split; [by apply process_file_skips | by left]. }
  assert (¬ directory (files w) file_path) as Hnodir by tauto.
  assert (skipped_name (path_name file_path) ≠ true) as Hname by tauto.
  apply not_true_is_false in Hname.
  eexists. split.
  - unfold process_file. erewrite bind_return by apply is_dir_spec.
    assert (match files w !! file_path with
            | Some n => node_is_dir n
            | None => false
            end = false) as ->.
    { destruct (files w !! file_path) as [n|] eqn:Hn; [|done].
      destruct (node_is_dir n) eqn:Hd; [|done].
      destruct Hnodir. by exists n. }
    unfold skipped_name in Hname.
    apply orb_false_elim in Hname as [-> ->].
    erewrite bind_return by apply is_file_ready_spec.
    rewrite bool_decide_eq_false_2 by done. simpl. apply logger_spec.
  - simpl. destruct (files w !! file_path); auto.
Qed.

(** Past the checks, the rule chain: redirect first, type rules next. *)
Lemma process_file_rules file_path rule w :
  passes_checks during_wait file_path w →
  process_file urlparse_netloc fuel during_wait file_path rule w
  = match download_source (during_wait (files w)) file_path with
    | Some url =>
        if Str.truthy url
           && matches_redirect_domain urlparse_netloc url
                (WatchRule.redirect_domains rule)
        then redirect urlparse_netloc fuel file_path rule url
               (at_rules during_wait file_path w)
        else type_matching fuel file_path rule
               (at_rules during_wait file_path w)
    | None =>
        type_matching fuel file_path rule (at_rules during_wait file_path w)
    end.
Proof.
  intros ((n & Hn & Hfile) & Hname & Hstable).
  unfold process_file. erewrite bind_return by apply is_dir_spec.
  rewrite Hn, Hfile. unfold skipped_name in Hname.
  apply orb_false_elim in Hname as [-> ->].
  erewrite bind_return by apply is_file_ready_spec.
  rewrite bool_decide_eq_true_2 by done. simpl. rewrite Hn.
  erewrite bind_return by apply logger_spec.
  erewrite bind_return by apply get_download_source_spec. simpl.
  fold (at_rules during_wait file_path w).
  destruct (download_source (during_wait (files w)) file_path) as [url|];
    [|done].
  destruct (_ && _); done.
Qed.

End ProcessFile.

(* ===================================================================== *)
(** * [parse_watch_rules] *)
(* ===================================================================== *)

Lemma elem_of_map {A B} (f : A → B) (l : list A) (y : B) :
  y ∈ map f l ↔ ∃ x, y = f x ∧ x ∈ l.
Proof. change (map f l) with (f <$> l). apply list_elem_of_fmap. Qed.

(** A type rule of the parsed list, and the entry it was parsed from. *)
Lemma parse_type_rules_origin items tr :
  tr ∈ parse_type_rules items →
  ∃ type_name type_config,
    (type_name, type_config) ∈ items
    ∧ tr = TypeRule.mk type_name
             (map Str.lower (get (cfg_extensions type_config) []))
             (get (cfg_destination type_config) type_name).
Proof.
  unfold parse_type_rules. intros ([n c] & -> & Hin)%elem_of_map. eauto.
Qed.

Lemma lowered_extension_match file_path configured :
  get_file_extension file_path ∈ map Str.lower configured ↔
  ∃ e, e ∈ configured ∧ Str.lower e = Str.lower (suffix file_path).
Proof.
  unfold get_file_extension. rewrite elem_of_map. split.
  - intros (e & He & Hin). eauto.
  - intros (e & Hin & He). eauto.
Qed.

Section ParseWatchRules.

Variable expanduser : string → string.

(** The enabled entries of the document, in order. *)
Lemma parse_rule_configs_enabled rule_configs : ∀ rules,
  parse_rule_configs expanduser rule_configs = inr rules →
  Forall2 (λ rule_config rule,
             cfg_name rule_config = Some (WatchRule.name rule)
             ∧ WatchRule.enabled rule = true
             ∧ WatchRule.type_rules rule
               = parse_type_rules (get (cfg_type_rules rule_config) []))
    (filter (λ rule_config, get (cfg_enabled rule_config) true = true)
            rule_configs)
    rules.
Proof.
  induction rule_configs as [|rc rest IH]; intros rules; simpl.
  - intros [= <-]. constructor.
  - destruct (get (cfg_enabled rc) true) eqn:Hen; simpl.
    + rewrite filter_cons_True by done.
      destruct (cfg_watch_directory rc) as [dir|]; [|done]. simpl.
      destruct (cfg_name rc) as [rule_name|] eqn:Hname; [|done]. simpl.
      destruct (parse_rule_configs expanduser rest) as [e|parsed];
        [done|].
      intros [= <-]. constructor; [|by apply IH]. done.
    + rewrite filter_cons_False by (by rewrite Hen). apply IH.
Qed.

End ParseWatchRules.

(* ===================================================================== *)
(** * The specification, claim by claim *)
(* ===================================================================== *)

(** C1 (as amended).  For every file that passes the skip and readiness
    checks of [process_file] and whose provenance URL matches one of the
    rule's redirect domains, [process_file] logs the redirect and hands the
    file to [move_file] with destination
    [watch_directory / redirect_destination], whatever the type rules of
    the rule say; when that move of the file succeeds, the file is
    afterwards in the redirect destination, under its name or a numbered
    name that was free, and no longer at its source. *)
Theorem process_file_redirect_priority
    (urlparse_netloc : string → option string) (fuel : nat)
    (during_wait : gmap Path node → gmap Path node)
    (file_path : Path) (rule : WatchRule.t) (w : world) (url : string) :
  passes_checks during_wait file_path w →
  download_source (during_wait (files w)) file_path = Some url →
  matches_redirect_domain urlparse_netloc url
    (WatchRule.redirect_domains rule) = true →
  let dest_dir := joinpath (WatchRule.watch_directory rule)
                    (WatchRule.redirect_destination rule) in
  process_file urlparse_netloc fuel during_wait file_path rule w
  = redirect urlparse_netloc fuel file_path rule url
      (at_rules during_wait file_path w)
  ∧ ∀ w',
      regular_file (during_wait (files w)) file_path →
      move_file fuel file_path dest_dir
        (logged INFO
           (MsgDomainRedirect (extract_domain urlparse_netloc url)
              (path_name file_path))
           (at_rules during_wait file_path w)) = (Return true, w') →
      process_file urlparse_netloc fuel during_wait file_path rule w
      = (Return tt, w')
      ∧ ∃ target,
          (target = joinpath dest_dir (path_name file_path)
           ∨ ∃ k, (1 ≤ k)%N
                  ∧ target = candidate dest_dir (path_name file_path) k)
          ∧ during_wait (files w) !! target = None
          ∧ files w' !! target = during_wait (files w) !! file_path
          ∧ files w' !! file_path = None.
Proof.
  intros Hchecks Hsource Hmatch dest_dir.
  assert (process_file urlparse_netloc fuel during_wait file_path rule w
          = redirect urlparse_netloc fuel file_path rule url
              (at_rules during_wait file_path w)) as Hrun.
  { rewrite process_file_rules by done. rewrite Hsource, Hmatch.
    apply matches_redirect_domain_spec in Hmatch as [Hurl _].
    apply truthy_true in Hurl. by rewrite Hurl. }
  split; [done|]. intros w' (n & Hn & Hfile) Hmove. split.
  - rewrite Hrun. unfold redirect.
    erewrite bind_return by apply logger_spec.
    erewrite bind_return by exact Hmove. done.
  - eapply move_file_moved in Hmove
      as (target & Hshape & Hfree & Hat & Hgone); [|exact Hn|exact Hfile].
    exists target. simpl in Hfree. by rewrite Hn.
Qed.

(** C2.  A regular file moved into a directory that already has an entry
    of its name goes to [stem_N suffix] for the least [N >= 1] whose name
    is not in the directory; the target was free, so nothing that was
    there is overwritten: every entry other than the source is as before.
    A name is its stem followed by its suffix, and no move of a regular
    file, whatever its destination and outcome, changes another entry.
    Moving [a.txt] next to an [a.txt] gives [a_1.txt]; next to [a.txt] and
    [a_1.txt] it gives [a_2.txt]. *)
Theorem move_file_numbered_never_overwrites :
  (∀ (fuel : nat) (source destination_dir : Path) (w : world) (n : node),
     files w !! source = Some n → node_is_dir n = false →
     directory (files w) destination_dir →
     is_Some (files w !! joinpath destination_dir (path_name source)) →
     (size (files w) < fuel)%nat →
     ∃ (k : N) (w' : world),
       (1 ≤ k)%N
       ∧ (∀ j, (1 ≤ j < k)%N →
               is_Some (files w
                        !! candidate destination_dir (path_name source) j))
       ∧ files w !! candidate destination_dir (path_name source) k = None
       ∧ candidate destination_dir (path_name source) k
         = joinpath destination_dir
             (stem (parse_path (path_name source)) +:+ "_" +:+ pretty k
              +:+ suffix (parse_path (path_name source)))
       ∧ move_file fuel source destination_dir w = (Return true, w')
       ∧ files w' !! candidate destination_dir (path_name source) k = Some n
       ∧ files w' !! source = None
       ∧ ∀ q x, q ≠ source → files w !! q = Some x → files w' !! q = Some x)
  ∧ (∀ p : Path, stem p +:+ suffix p = path_name p)
  ∧ (∀ (fuel : nat) (source destination_dir : Path) (w w' : world)
       (o : outcome bool),
       regular_file (files w) source →
       move_file fuel source destination_dir w = (o, w') →
       ∀ q x, q ≠ source → files w !! q = Some x → files w' !! q = Some x)
  ∧ (let moved := move_file 20 (joinpath Example.downloads "a.txt")
                    (joinpath Example.downloads "Documents")
                    Example.world0 in
     moved.1 = Return true
     ∧ log moved.2
       = [(INFO, MsgMoved "a.txt"
                   (joinpath Example.downloads "Documents/a_1.txt"))]
     ∧ files moved.2 !! joinpath Example.downloads "Documents/a_1.txt"
       = Some (Example.file 5 AttrAbsent)
     ∧ files moved.2 !! joinpath Example.downloads "Documents/a.txt"
       = Some (Example.file 1 AttrAbsent)
     ∧ files moved.2 !! joinpath Example.downloads "a.txt" = None)
  ∧ (let moved := move_file 20 (joinpath Example.downloads "a.txt")
                    (joinpath Example.downloads "Archive")
                    Example.world0 in
     moved.1 = Return true
     ∧ log moved.2
       = [(INFO, MsgMoved "a.txt"
                   (joinpath Example.downloads "Archive/a_2.txt"))]
     ∧ files moved.2 !! joinpath Example.downloads "Archive/a_2.txt"
       = Some (Example.file 5 AttrAbsent)
     ∧ files moved.2 !! joinpath Example.downloads "Archive/a_1.txt"
       = Some (Example.file 3 AttrAbsent)
     ∧ files moved.2 !! joinpath Example.downloads "Archive/a.txt"
       = Some (Example.file 2 AttrAbsent)
     ∧ files moved.2 !! joinpath Example.downloads "a.txt" = None).
Proof.
  split; [|split; [apply stem_suffix|]; split;
            [intros fuel source destination_dir w w' o; apply move_file_frame|];
            split; cbv zeta; repeat split; vm_compute; reflexivity].
  intros fuel source destination_dir w n Hsrc Hfile Hdir Htaken Hfuel.
  destruct (move_file_collision fuel source destination_dir w n
              Hsrc Hfile Hdir Htaken Hfuel)
    as (k & Hk & Hleast & Hfree & Hrun).
  exists k. eexists. split; [done|]. split; [done|]. split; [done|].
  split; [done|]. split; [exact Hrun|]. simpl.
  split; [by rewrite lookup_insert_eq|]. split.
  { rewrite lookup_insert_ne by congruence. by rewrite lookup_delete_eq. }
  intros q x Hq Hx. rewrite lookup_insert_ne by congruence.
  by rewrite lookup_delete_ne.
Qed.

(** C3.  [find_matching_type_rule] looks up the lower-cased suffix of the
    file and returns the first type rule, in declaration order, whose
    extension list has it: no rule before the returned one lists it, and
    what later rules list plays no part.  It returns nothing only when no
    rule lists it.  With [.jpg] under Photos and then under Screenshots, a
    [.jpg] file resolves to Photos. *)
Theorem find_matching_type_rule_first_match :
  (∀ (file_path : Path) (type_rules : list TypeRule.t),
     get_file_extension file_path = Str.lower (suffix file_path)
     ∧ match find_matching_type_rule file_path type_rules with
       | Some rule =>
           ∃ earlier later,
             type_rules = earlier ++ rule :: later
             ∧ get_file_extension file_path ∈ TypeRule.extensions rule
             ∧ ∀ r, r ∈ earlier →
                    get_file_extension file_path ∉ TypeRule.extensions r
       | None =>
           ∀ r, r ∈ type_rules →
                get_file_extension file_path ∉ TypeRule.extensions r
       end)
  ∧ find_matching_type_rule (joinpath Example.downloads "IMG_0001.JPG")
      [TypeRule.mk "Photos" [".jpg"; ".jpeg"] "Photos";
       TypeRule.mk "Screenshots" [".png"; ".jpg"] "Screenshots"]
    = Some (TypeRule.mk "Photos" [".jpg"; ".jpeg"] "Photos").
Proof.
  split; [|by vm_compute].
  intros file_path type_rules. split; [done|].
  apply find_matching_type_rule_spec.
Qed.

(** C4.  A file that passes the skip and readiness checks, whose
    provenance URL, if it has one, matches no redirect domain, and whose
    extension is in no type rule, is not moved: [process_file] returns
    with the file system as the wait left it, the file still at its path,
    and two debug records in the log. *)
Theorem process_file_no_rule_no_move
    (urlparse_netloc : string → option string) (fuel : nat)
    (during_wait : gmap Path node → gmap Path node)
    (file_path : Path) (rule : WatchRule.t) (w : world) :
  passes_checks during_wait file_path w →
  (∀ url, download_source (during_wait (files w)) file_path = Some url →
          matches_redirect_domain urlparse_netloc url
            (WatchRule.redirect_domains rule) = false) →
  find_matching_type_rule file_path (WatchRule.type_rules rule) = None →
  process_file urlparse_netloc fuel during_wait file_path rule w
  = (Return tt,
     mkWorld (during_wait (files w))
       (log w ++ [(DEBUG, MsgProcessing (path_name file_path));
                  (DEBUG, MsgNoMatchingRule (path_name file_path))]))
  ∧ is_Some (during_wait (files w) !! file_path).
Proof.
  intros Hchecks Hnoredirect Hnotype. split.
  - rewrite process_file_rules by done.
    assert (type_matching fuel file_path rule
              (at_rules during_wait file_path w)
            = (Return tt,
               mkWorld (during_wait (files w))
                 (log w ++ [(DEBUG, MsgProcessing (path_name file_path));
                            (DEBUG, MsgNoMatchingRule (path_name file_path))])))
      as Htype.
    { unfold type_matching. rewrite Hnotype. unfold logger, at_rules. simpl.
      by rewrite <- app_assoc. }
    destruct (download_source (during_wait (files w)) file_path) as [url|];
      [|done].
    rewrite (Hnoredirect url eq_refl). by rewrite andb_false_r.
  - destruct Hchecks as (_ & _ & n1 & n2 & _ & Hn2 & _). eauto.
Qed.

(** C5.  [matches_redirect_domain] answers [True] exactly when the URL is
    not empty, its parsed host is not empty, and the lower-cased host has
    the lower-cased form of some redirect pattern as a contiguous block:
    plain containment, with case ignored on both sides.  So the pattern
    [ok] matches the host [facebook.com]. *)
Theorem matches_redirect_domain_substring :
  (∀ (urlparse_netloc : string → option string) (url : string)
     (redirect_domains : list string),
     matches_redirect_domain urlparse_netloc url redirect_domains = true ↔
     url ≠ "" ∧
     ∃ host pattern,
       urlparse_netloc url = Some host ∧ host ≠ ""
       ∧ pattern ∈ redirect_domains
       ∧ Str.substring_of (Str.lower pattern) (Str.lower host))
  ∧ Str.substring_of "ok" "facebook.com"
  ∧ matches_redirect_domain Reference.urlparse_netloc
      "https://facebook.com/files/report.pdf" ["ok"] = true
  ∧ matches_redirect_domain Reference.urlparse_netloc
      "https://www.FaceBook.com/files/report.pdf" ["BOOK"] = true.
Proof.
  split; [apply matches_redirect_domain_spec|].
  split; [by exists "facebo", ".com"|]. by vm_compute.
Qed.

(** C6.  [is_file_ready] takes the size, waits, takes the size again, and
    answers [True] exactly when the path is there at both samples with one
    size.  A file of zero bytes at both samples is ready.  A path that is
    gone after the wait gives [False], and [process_file] then returns
    having written nothing: the file system is the one it found, or the one
    the wait left. *)
Theorem is_file_ready_stable_size
    (during_wait : gmap Path node → gmap Path node)
    (file_path : Path) (w : world) :
  (∃ ready w',
     is_file_ready during_wait file_path w = (Return ready, w')
     ∧ (ready = true ↔
        ∃ n1 n2, files w !! file_path = Some n1
                 ∧ during_wait (files w) !! file_path = Some n2
                 ∧ st_size n1 = st_size n2))
  ∧ (∀ n1 n2,
       files w !! file_path = Some n1 →
       during_wait (files w) !! file_path = Some n2 →
       st_size n1 = 0 → st_size n2 = 0 →
       ∃ w', is_file_ready during_wait file_path w = (Return true, w'))
  ∧ (is_Some (files w !! file_path) →
     during_wait (files w) !! file_path = None →
     (∃ w', is_file_ready during_wait file_path w = (Return false, w'))
     ∧ ∀ (urlparse_netloc : string → option string) (fuel : nat)
         (rule : WatchRule.t),
         ∃ w',
           process_file urlparse_netloc fuel during_wait file_path rule w
           = (Return tt, w')
           ∧ (files w' = files w ∨ files w' = during_wait (files w))).
Proof.
  split; [|split].
  - eexists _, _. split; [apply is_file_ready_spec|].
    apply bool_decide_eq_true.
  - intros n1 n2 H1 H2 Hz1 Hz2. eexists.
    rewrite is_file_ready_spec. rewrite bool_decide_eq_true_2; [done|].
    exists n1, n2. split; [done|]. split; [done|]. congruence.
  - intros Hthere Hgone.
    assert (¬ stable_size (files w) (during_wait (files w)) file_path)
      as Hunstable.
    { intros (? & ? & _ & ? & _). congruence. }
    split.
    + eexists. rewrite is_file_ready_spec.
      by rewrite bool_decide_eq_false_2.
    + intros urlparse_netloc fuel rule.
      by apply process_file_not_ready.
Qed.

(** C7.  [get_download_source] returns the first URL of the provenance
    attribute when the attribute is read and its list is not empty; it
    returns none when the attribute is absent, when the list is empty and
    when the read raises, and changes nothing.  With no URL,
    [process_file], past its checks, goes on to type matching. *)
Theorem get_download_source_first_url_or_none :
  (∀ (file_path : Path) (w : world),
     get_download_source file_path w
     = (Return
          match files w !! file_path with
          | Some n =>
              match attr_where_froms n with
              | AttrUrls (url :: _) => Some url
              | AttrUrls [] => None
              | AttrAbsent => None
              | AttrUnreadable => None
              end
          | None => None
          end, w))
  ∧ (∀ (urlparse_netloc : string → option string) (fuel : nat)
       (during_wait : gmap Path node → gmap Path node)
       (file_path : Path) (rule : WatchRule.t) (w w1 : world),
       passes_checks during_wait file_path w →
       get_download_source file_path (at_rules during_wait file_path w)
       = (Return None, w1) →
       process_file urlparse_netloc fuel during_wait file_path rule w
       = type_matching fuel file_path rule
           (at_rules during_wait file_path w)).
Proof.
  split.
  - intros file_path w. rewrite get_download_source_spec.
    unfold download_source. destruct (files w !! file_path) as [n|]; [|done].
    by destruct (attr_where_froms n) as [| |[|url urls]].
  - intros urlparse_netloc fuel during_wait file_path rule w w1 Hchecks Hnone.
    rewrite get_download_source_spec in Hnone. simpl in Hnone.
    injection Hnone as Hnone _.
    rewrite process_file_rules by done. by rewrite Hnone.
Qed.

(** C8.  Given more fuel than the file system has entries,
    [generate_unique_filename] returns: the path [destination /
    original_name] when nothing is there, and otherwise the path
    [destination / stem_N suffix] for the least counter [N >= 1] that
    names nothing in the file system.  It changes nothing. *)
Theorem generate_unique_filename_least_free
    (fuel : nat) (destination : Path) (original_name : string) (w : world) :
  (size (files w) < fuel)%nat →
  ∃ target,
    generate_unique_filename fuel destination original_name w
    = (Return target, w)
    ∧ files w !! target = None
    ∧ (files w !! joinpath destination original_name = None →
       target = joinpath destination original_name)
    ∧ (is_Some (files w !! joinpath destination original_name) →
       ∃ counter : N,
         (1 ≤ counter)%N
         ∧ target
           = joinpath destination
               (stem (parse_path original_name) +:+ "_" +:+ pretty counter
                +:+ suffix (parse_path original_name))
         ∧ ∀ j, (1 ≤ j < counter)%N →
                is_Some (files w
                         !! joinpath destination
                              (stem (parse_path original_name) +:+ "_"
                               +:+ pretty j
                               +:+ suffix (parse_path original_name)))).
Proof. apply generate_unique_filename_spec. Qed.

(** C9.  On the empty URL, and on a URL whose parsed host is empty,
    [matches_redirect_domain] answers [False] whatever the patterns; a
    file with such a provenance URL, past the checks of [process_file],
    goes to type matching. *)
Theorem matches_redirect_domain_no_host
    (urlparse_netloc : string → option string) (url : string) :
  url = "" ∨ urlparse_netloc url = Some "" →
  (∀ redirect_domains,
     matches_redirect_domain urlparse_netloc url redirect_domains = false)
  ∧ ∀ (fuel : nat) (during_wait : gmap Path node → gmap Path node)
      (file_path : Path) (rule : WatchRule.t) (w : world),
      passes_checks during_wait file_path w →
      download_source (during_wait (files w)) file_path = Some url →
      process_file urlparse_netloc fuel during_wait file_path rule w
      = type_matching fuel file_path rule (at_rules during_wait file_path w).
Proof.
  intros Hhost.
  assert (∀ redirect_domains,
            matches_redirect_domain urlparse_netloc url redirect_domains
            = false) as Hno.
  { intros redirect_domains.
    destruct (matches_redirect_domain urlparse_netloc url redirect_domains)
      eqn:Hm; [|done].
    apply matches_redirect_domain_spec
      in Hm as (Hurl & host & pattern & Hparsed & Hne & _).
    destruct Hhost as [->|Hempty]; [done|]. congruence. }
  split; [done|].
  intros fuel during_wait file_path rule w Hchecks Hsource.
  rewrite process_file_rules by done.
  by rewrite Hsource, Hno, andb_false_r.
Qed.

(** C10.  The rules [parse_watch_rules] returns are those of the enabled
    entries of the document, in order: an entry with [enabled] false has
    no rule.  Every rule has [enabled] true, and every extension of every
    type rule is lower-cased: it is the lower-casing of the document's
    list, so a file matches a type rule exactly when its suffix and some
    extension of the document agree up to case. *)
Theorem parse_watch_rules_enabled_lowercase
    (expanduser : string → string) (config : Config)
    (rules : list WatchRule.t) :
  parse_watch_rules expanduser config = inr rules →
  Forall2 (λ rule_config rule,
             cfg_name rule_config = Some (WatchRule.name rule))
    (filter (λ rule_config, get (cfg_enabled rule_config) true = true)
            (get (cfg_watch_rules config) []))
    rules
  ∧ ∀ rule, rule ∈ rules →
      WatchRule.enabled rule = true
      ∧ ∀ type_rule, type_rule ∈ WatchRule.type_rules rule →
          (∀ ext, ext ∈ TypeRule.extensions type_rule → Str.lower ext = ext)
          ∧ ∃ rule_config type_config,
              rule_config ∈ get (cfg_watch_rules config) []
              ∧ (TypeRule.name type_rule, type_config)
                ∈ get (cfg_type_rules rule_config) []
              ∧ TypeRule.extensions type_rule
                = map Str.lower (get (cfg_extensions type_config) [])
              ∧ ∀ file_path,
                  get_file_extension file_path
                  ∈ TypeRule.extensions type_rule ↔
                  ∃ e, e ∈ get (cfg_extensions type_config) []
                       ∧ Str.lower e = Str.lower (suffix file_path).
Proof.
  unfold parse_watch_rules. intros Hparse.
  apply parse_rule_configs_enabled in Hparse. split.
  - eapply Forall2_impl; [exact Hparse|]. by intros rc r (? & _).
  - intros rule [i Hi]%list_elem_of_lookup.
    destruct (Forall2_lookup_r _ _ _ _ _ Hparse Hi)
      as (rc & Hrc & Hname & Hen & Htypes).
    apply list_elem_of_lookup_2, list_elem_of_filter in Hrc as [_ Hrc].
    split; [done|]. intros type_rule Htr. rewrite Htypes in Htr.
    apply parse_type_rules_origin in Htr as (tn & tc & Hitem & ->). simpl.
    split.
    + intros ext (e & -> & _)%elem_of_map. apply lower_idemp.
    + exists rc, tc. split; [done|]. split; [done|]. split; [done|].
      intros file_path. apply lowered_extension_match.
Qed.

(* ===================================================================== *)
(** * The claims on the example folder *)
(* ===================================================================== *)

Ltac by_decide := apply (bool_decide_unpack _); vm_compute; exact I.

(** C1, the claim as it was stated, fails on the example folder.
    [draft.jpg.tmp] was downloaded from a redirect domain and its size is
    stable, yet [process_file] returns at once, with the world as it was:
    the name is one it skips.  And where a regular file sits at the
    redirect destination, [pic.jpg], downloaded from a redirect domain,
    stays where it was: the move fails and is logged. *)
Lemma redirect_not_for_every_file :
  (download_source (files Example.world0)
     (joinpath Example.downloads "draft.jpg.tmp")
   = Some "https://www.Facebook.com/photos/pic.jpg"
   ∧ matches_redirect_domain Reference.urlparse_netloc
       "https://www.Facebook.com/photos/pic.jpg"
       (WatchRule.redirect_domains Example.rule) = true
   ∧ regular_file (files Example.world0)
       (joinpath Example.downloads "draft.jpg.tmp")
   ∧ stable_size (files Example.world0) (files Example.world0)
       (joinpath Example.downloads "draft.jpg.tmp")
   ∧ process_file Reference.urlparse_netloc 20 id
       (joinpath Example.downloads "draft.jpg.tmp") Example.rule
       Example.world0
     = (Return tt, Example.world0))
  ∧ (let left_alone :=
       process_file Reference.urlparse_netloc 20 id
         (joinpath Example.downloads "pic.jpg") Example.rule
         Example.blocked in
     download_source (files Example.blocked)
       (joinpath Example.downloads "pic.jpg")
     = Some "https://www.Facebook.com/photos/pic.jpg"
     ∧ passes_checks id (joinpath Example.downloads "pic.jpg")
         Example.blocked
     ∧ left_alone.1 = Return tt
     ∧ log left_alone.2
       = [(DEBUG, MsgProcessing "pic.jpg");
          (INFO, MsgDomainRedirect (Some "www.facebook.com") "pic.jpg");
          (ERROR, MsgFailedToMove (joinpath Example.downloads "pic.jpg")
                    FileExistsError)]
     ∧ files left_alone.2 !! joinpath Example.downloads "pic.jpg"
       = Some (Example.file 2048 Example.from_facebook)
     ∧ files left_alone.2 !! joinpath Example.downloads "tmp/pic.jpg"
       = None).
Proof.
  split.
  - split; [vm_compute; reflexivity|]. split; [vm_compute; reflexivity|].
    split; [by_decide|]. split; [by_decide|].
    apply process_file_skips. right. vm_compute; reflexivity.
  - cbv zeta. split; [vm_compute; reflexivity|]. split.
    { split; [by_decide|]. split; [vm_compute; reflexivity|by_decide]. }
    repeat split; vm_compute; reflexivity.
Qed.

(** C1 on [pic.jpg], downloaded from a redirect domain, with a [.jpg]
    type rule in the same watch rule. *)
Lemma process_file_redirect_priority_witness :
  passes_checks id (joinpath Example.downloads "pic.jpg") Example.world0
  ∧ download_source (id (files Example.world0))
      (joinpath Example.downloads "pic.jpg")
    = Some "https://www.Facebook.com/photos/pic.jpg"
  ∧ matches_redirect_domain Reference.urlparse_netloc
      "https://www.Facebook.com/photos/pic.jpg"
      (WatchRule.redirect_domains Example.rule) = true
  ∧ process_file Reference.urlparse_netloc 20 id
      (joinpath Example.downloads "pic.jpg") Example.rule Example.world0
    = redirect Reference.urlparse_netloc 20
        (joinpath Example.downloads "pic.jpg") Example.rule
        "https://www.Facebook.com/photos/pic.jpg"
        (at_rules id (joinpath Example.downloads "pic.jpg") Example.world0)
  ∧ find_matching_type_rule (joinpath Example.downloads "pic.jpg")
      (WatchRule.type_rules Example.rule)
    = Some (TypeRule.mk "Photos" [".jpg"; ".jpeg"] "Photos")
  ∧ files (process_file Reference.urlparse_netloc 20 id
             (joinpath Example.downloads "pic.jpg") Example.rule
             Example.world0).2
    !! joinpath Example.downloads "tmp/pic.jpg"
    = Some (Example.file 2048 Example.from_facebook)
  ∧ files (process_file Reference.urlparse_netloc 20 id
             (joinpath Example.downloads "pic.jpg") Example.rule
             Example.world0).2
    !! joinpath Example.downloads "Photos/pic.jpg"
    = None.
Proof.
  assert (passes_checks id (joinpath Example.downloads "pic.jpg")
            Example.world0) as Hchecks.
  { split; [by_decide|]. split; [vm_compute; reflexivity|by_decide]. }
  assert (download_source (id (files Example.world0))
            (joinpath Example.downloads "pic.jpg")
          = Some "https://www.Facebook.com/photos/pic.jpg") as Hsource.
  { vm_compute; reflexivity. }
  assert (matches_redirect_domain Reference.urlparse_netloc
            "https://www.Facebook.com/photos/pic.jpg"
            (WatchRule.redirect_domains Example.rule) = true) as Hmatch.
  { vm_compute; reflexivity. }
  split; [exact Hchecks|]. split; [exact Hsource|]. split; [exact Hmatch|].
  split.
  { exact (proj1 (process_file_redirect_priority Reference.urlparse_netloc
                    20 id (joinpath Example.downloads "pic.jpg")
                    Example.rule Example.world0 _ Hchecks Hsource Hmatch)). }
  repeat split; vm_compute; reflexivity.
Defined.

(** C2 on [a.txt], moved into [Documents], which has an [a.txt]. *)
Lemma move_file_numbered_never_overwrites_witness :
  files Example.world0 !! joinpath Example.downloads "a.txt"
  = Some (Example.file 5 AttrAbsent)
  ∧ directory (files Example.world0) (joinpath Example.downloads "Documents")
  ∧ is_Some (files Example.world0
             !! joinpath (joinpath Example.downloads "Documents")
                  (path_name (joinpath Example.downloads "a.txt")))
  ∧ (size (files Example.world0) < 20)%nat
  ∧ ∃ (k : N) (w' : world),
      (1 ≤ k)%N
      ∧ move_file 20 (joinpath Example.downloads "a.txt")
          (joinpath Example.downloads "Documents") Example.world0
        = (Return true, w')
      ∧ files w' !! joinpath Example.downloads "a.txt" = None.
Proof.
  assert (files Example.world0 !! joinpath Example.downloads "a.txt"
          = Some (Example.file 5 AttrAbsent)) as Hsrc.
  { vm_compute; reflexivity. }
  assert (directory (files Example.world0)
            (joinpath Example.downloads "Documents")) as Hdir.
  { by_decide. }
  assert (is_Some (files Example.world0
                   !! joinpath (joinpath Example.downloads "Documents")
                        (path_name (joinpath Example.downloads "a.txt"))))
    as Htaken.
  { by_decide. }
  assert (size (files Example.world0) < 20)%nat as Hfuel.
  { vm_compute. lia. }
  split; [exact Hsrc|]. split; [exact Hdir|]. split; [exact Htaken|].
  split; [exact Hfuel|].
  destruct (proj1 move_file_numbered_never_overwrites 20%nat
              (joinpath Example.downloads "a.txt")
              (joinpath Example.downloads "Documents") Example.world0
              (Example.file 5 AttrAbsent) Hsrc eq_refl Hdir Htaken Hfuel)
    as (k & w' & Hk & _ & _ & _ & Hrun & _ & Hgone & _).
  exists k, w'. split; [exact Hk|]. split; [exact Hrun|exact Hgone].
Defined.

(** C4 on [notes.xyz]: from a domain that is not redirected, with an
    extension no type rule lists. *)
Lemma process_file_no_rule_no_move_witness :
  passes_checks id (joinpath Example.downloads "notes.xyz") Example.world0
  ∧ find_matching_type_rule (joinpath Example.downloads "notes.xyz")
      (WatchRule.type_rules Example.rule) = None
  ∧ process_file Reference.urlparse_netloc 20 id
      (joinpath Example.downloads "notes.xyz") Example.rule Example.world0
    = (Return tt,
       mkWorld (files Example.world0)
         [(DEBUG, MsgProcessing "notes.xyz");
          (DEBUG, MsgNoMatchingRule "notes.xyz")]).
Proof.
  assert (passes_checks id (joinpath Example.downloads "notes.xyz")
            Example.world0) as Hchecks.
  { split; [by_decide|]. split; [vm_compute; reflexivity|by_decide]. }
  assert (∀ url,
            download_source (id (files Example.world0))
              (joinpath Example.downloads "notes.xyz") = Some url →
            matches_redirect_domain Reference.urlparse_netloc url
              (WatchRule.redirect_domains Example.rule) = false)
    as Hnoredirect.
  { intros url Hurl. vm_compute in Hurl. injection Hurl as <-.
    vm_compute; reflexivity. }
  assert (find_matching_type_rule (joinpath Example.downloads "notes.xyz")
            (WatchRule.type_rules Example.rule) = None) as Hnotype.
  { vm_compute; reflexivity. }
  split; [exact Hchecks|]. split; [exact Hnotype|].
  exact (proj1 (process_file_no_rule_no_move Reference.urlparse_netloc 20 id
                  (joinpath Example.downloads "notes.xyz") Example.rule
                  Example.world0 Hchecks Hnoredirect Hnotype)).
Defined.

(** C6 on [empty.bin]: zero bytes and left alone, it is ready; deleted
    during the wait, it is not. *)
Lemma is_file_ready_stable_size_witness :
  (∃ w', is_file_ready id (joinpath Example.downloads "empty.bin")
           Example.world0 = (Return true, w'))
  ∧ (∃ w', is_file_ready Example.deleting
             (joinpath Example.downloads "empty.bin") Example.world0
           = (Return false, w')).
Proof.
  split.
  - apply (proj1 (proj2 (is_file_ready_stable_size id
                           (joinpath Example.downloads "empty.bin")
                           Example.world0))
             (Example.file 0 AttrUnreadable) (Example.file 0 AttrUnreadable));
      vm_compute; reflexivity.
  - apply (proj2 (proj2 (is_file_ready_stable_size Example.deleting
                           (joinpath Example.downloads "empty.bin")
                           Example.world0))).
    + by_decide.
    + vm_compute; reflexivity.
Defined.

(** C7 on [a.txt], which has no provenance attribute. *)
Lemma get_download_source_first_url_or_none_witness :
  passes_checks id (joinpath Example.downloads "a.txt") Example.world0
  ∧ process_file Reference.urlparse_netloc 20 id
      (joinpath Example.downloads "a.txt") Example.rule Example.world0
    = type_matching 20 (joinpath Example.downloads "a.txt") Example.rule
        (at_rules id (joinpath Example.downloads "a.txt") Example.world0).
Proof.
  assert (passes_checks id (joinpath Example.downloads "a.txt")
            Example.world0) as Hchecks.
  { split; [by_decide|]. split; [vm_compute; reflexivity|by_decide]. }
  split; [exact Hchecks|].
  apply (proj2 get_download_source_first_url_or_none
           Reference.urlparse_netloc 20%nat id
           (joinpath Example.downloads "a.txt") Example.rule Example.world0
           (at_rules id (joinpath Example.downloads "a.txt") Example.world0)
           Hchecks).
  rewrite get_download_source_spec. apply (f_equal (λ o, (Return o, _))).
  vm_compute; reflexivity.
Defined.

(** C8 on [a.txt] and [Archive], which has [a.txt] and [a_1.txt]. *)
Lemma generate_unique_filename_least_free_witness :
  (size (files Example.world0) < 20)%nat
  ∧ ∃ target,
      generate_unique_filename 20 (joinpath Example.downloads "Archive")
        "a.txt" Example.world0 = (Return target, Example.world0)
      ∧ files Example.world0 !! target = None.
Proof.
  assert (size (files Example.world0) < 20)%nat as Hfuel.
  { vm_compute. lia. }
  split; [exact Hfuel|].
  destruct (generate_unique_filename_least_free 20
              (joinpath Example.downloads "Archive") "a.txt" Example.world0
              Hfuel) as (target & Hrun & Hfree & _).
  exists target. split; [exact Hrun|exact Hfree].
Defined.

(** C9 on the provenance URL of [local.jpg], a bare path. *)
Lemma matches_redirect_domain_no_host_witness :
  Reference.urlparse_netloc "downloads/local.jpg" = Some ""
  ∧ matches_redirect_domain Reference.urlparse_netloc "downloads/local.jpg"
      ["downloads"; "local"; ""] = false.
Proof.
  assert (Reference.urlparse_netloc "downloads/local.jpg" = Some "")
    as Hhost.
  { vm_compute; reflexivity. }
  split; [exact Hhost|].
  apply (proj1 (matches_redirect_domain_no_host Reference.urlparse_netloc
                  "downloads/local.jpg" (or_intror Hhost))).
Defined.

(** C10 on the example document: the Desktop entry is disabled. *)
Lemma parse_watch_rules_enabled_lowercase_witness :
  parse_watch_rules (Reference.expanduser "/Users/me") Example.document
  = inr Example.parsed
  ∧ ∀ rule, rule ∈ Example.parsed → WatchRule.enabled rule = true.
Proof.
  assert (parse_watch_rules (Reference.expanduser "/Users/me")
            Example.document = inr Example.parsed) as Hparse.
  { vm_compute; reflexivity. }
  split; [exact Hparse|].
  intros rule Hrule.
  exact (proj1 (proj2 (parse_watch_rules_enabled_lowercase _ _ _ Hparse)
                  rule Hrule)).
Defined.

(* ===================================================================== *)
(** * Further properties: extensions *)
(* ===================================================================== *)

Lemma rfind_go_absent c s : ∀ i last,
  Str.has_char c s = false → Str.rfind_go c s i last = last.
Proof.
  induction s as [|a s IH]; intros i last; simpl; [done|].
  intros [Ha Hs]%orb_false_elim. rewrite Ha. by apply IH.
Qed.

Lemma rfind_go_last c a rest : ∀ i last,
  Str.has_char c rest = false →
  Str.rfind_go c (a +:+ String c rest) i last = i + Str.len a.
Proof.
  unfold Str.len. induction a as [|x a IH]; intros i last Hrest.
  - rewrite app_empty_l. simpl. rewrite Ascii.eqb_refl.
    rewrite rfind_go_absent by done. lia.
  - rewrite app_cons. simpl. rewrite IH by done. lia.
Qed.

(** A string with the character splits at its last occurrence. *)
Lemma split_at_last c s :
  Str.has_char c s = true →
  ∃ a rest, s = a +:+ String c rest ∧ Str.has_char c rest = false.
Proof.
  induction s as [|x s IH]; simpl; [done|].
  destruct (Str.has_char c s) eqn:Hs.
  - intros _. destruct IH as (a & rest & -> & Hrest); [done|].
    by exists (String x a), rest.
  - rewrite orb_false_r. intros ->%Ascii.eqb_eq. by exists "", s.
Qed.

Lemma app_string_assoc s t u : (s +:+ t) +:+ u = s +:+ t +:+ u.
Proof. induction s as [|a s IH]; [done|]. by rewrite !app_cons, IH. Qed.

Lemma drop_app_length a b : Str.drop (String.length a) (a +:+ b) = b.
Proof. induction a as [|x a IH]; [by destruct b|]. by rewrite app_cons. Qed.

Lemma take_app_length a b : Str.take (String.length a) (a +:+ b) = a.
Proof.
  induction a as [|x a IH]; [by destruct b|].
  rewrite app_cons. simpl. by rewrite IH.
Qed.

(** The name of a path has no suffix, or it is a non-empty stem followed by
    a dotted suffix. *)
Lemma suffix_cases p :
  (suffix p = "" ∧ stem p = path_name p)
  ∨ (∃ a rest,
       path_name p = a +:+ String dot rest
       ∧ a ≠ "" ∧ rest ≠ "" ∧ Str.has_char dot rest = false
       ∧ suffix p = String dot rest ∧ stem p = a).
Proof.
  unfold suffix, stem, Str.rfind. set (name := path_name p).
  destruct (Str.has_char dot name) eqn:Hdot.
  - destruct (split_at_last dot name Hdot) as (a & rest & Hname & Hrest).
    rewrite Hname, rfind_go_last by done.
    destruct ((0 <? 0 + Str.len a)
              && (0 + Str.len a <? Str.len (a +:+ String dot rest) - 1))
      eqn:Hcond; [|by left].
    right. exists a, rest.
    apply andb_true_iff in Hcond as [Hpos Hlt].
    apply Z.ltb_lt in Hpos, Hlt. unfold Str.len in *.
    rewrite length_app_string in Hlt. simpl in Hlt.
    split; [done|].
    split; [destruct a; [simpl in Hpos; lia|done]|].
    split; [destruct rest; [simpl in Hlt; lia|done]|].
    split; [done|]. unfold Str.slice_from, Str.slice_to.
    replace (Z.to_nat (0 + Z.of_nat (String.length a)))
      with (String.length a) by lia.
    by rewrite drop_app_length, take_app_length.
  - left. rewrite rfind_go_absent by done. done.
Qed.

Lemma lower_char_dot c :
  Ascii.eqb (Str.lower_char c) dot = Ascii.eqb c dot.
Proof. by destruct c as [[] [] [] [] [] [] [] []]. Qed.

Lemma has_char_dot_lower s :
  Str.has_char dot (Str.lower s) = Str.has_char dot s.
Proof.
  induction s as [|c s IH]; [done|]. simpl. by rewrite lower_char_dot, IH.
Qed.

Lemma dotted_lower ext : dotted ext → dotted (Str.lower ext).
Proof.
  intros (rest & -> & Hne & Hrest). exists (Str.lower rest).
  split; [done|]. split; [by destruct rest|].
  by rewrite has_char_dot_lower.
Qed.

(** X1.  The extension [get_file_extension] gives is lower-case, and it is
    empty or one dot followed by at least one character, none of them a
    dot.  So the extension through which [find_matching_type_rule] matched
    a rule has that shape: an entry of another shape ([.tar.gz], [jpg],
    [.JPG]) in the [extensions] of a [TypeRule] is never what a file
    matches. *)
Theorem get_file_extension_dotted (file_path : Path) :
  (get_file_extension file_path = ""
   ∨ dotted (get_file_extension file_path))
  ∧ Str.lower (get_file_extension file_path) = get_file_extension file_path
  ∧ ∀ (type_rules : list TypeRule.t) (rule : TypeRule.t),
      find_matching_type_rule file_path type_rules = Some rule →
      ∃ ext,
        ext ∈ TypeRule.extensions rule
        ∧ ext = get_file_extension file_path
        ∧ (ext = "" ∨ dotted ext)
        ∧ Str.lower ext = ext.
Proof.
  assert (get_file_extension file_path = ""
          ∨ dotted (get_file_extension file_path)) as Hshape.
  { unfold get_file_extension.
    destruct (suffix_cases file_path)
      as [[-> _]|(a & rest & _ & _ & Hne & Hrest & -> & _)]; [by left|].
    right. apply dotted_lower. by exists rest. }
  split; [done|]. split; [apply lower_idemp|].
  intros type_rules rule Hfind.
  pose proof (find_matching_type_rule_spec file_path type_rules) as Hspec.
  rewrite Hfind in Hspec. destruct Hspec as (_ & _ & _ & Hin & _).
  exists (get_file_extension file_path).
  split; [done|]. split; [done|]. split; [done|]. apply lower_idemp.
Qed.

Lemma path_name_candidate destination original_name k :
  path_name (candidate destination original_name k)
  = numbered (stem (parse_path original_name))
      (suffix (parse_path original_name)) k.
Proof. rewrite candidate_eq. unfold path_name. simpl. apply last_last. Qed.

(** X2.  The numbered name [generate_unique_filename] gives a file that
    has a suffix keeps that suffix: the renamed file has the extension of
    the original, so the type rule that matched it still does. *)
Theorem candidate_keeps_suffix
    (destination : Path) (original_name : string) (counter : N) :
  suffix (parse_path original_name) ≠ "" →
  suffix (candidate destination original_name counter)
  = suffix (parse_path original_name)
  ∧ get_file_extension (candidate destination original_name counter)
    = get_file_extension (parse_path original_name).
Proof.
  intros Hsuffix.
  assert (suffix (candidate destination original_name counter)
          = suffix (parse_path original_name)) as Heq.
  { destruct (suffix_cases (parse_path original_name))
      as [[Hnone _]|(a & rest & _ & Ha & Hne & Hrest & Hsfx & Hstem)];
      [done|].
    unfold suffix at 1, Str.rfind.
    rewrite path_name_candidate, Hsfx, Hstem. unfold numbered.
    replace (a +:+ "_" +:+ pretty counter +:+ String dot rest)
      with ((a +:+ "_" +:+ pretty counter) +:+ String dot rest); cycle 1.
    { by rewrite !app_string_assoc. }
    rewrite rfind_go_last by done.
    set (front := a +:+ "_" +:+ pretty counter).
    assert (0 < Str.len front) as Hfront.
    { unfold Str.len, front. rewrite length_app_string.
      destruct a; [done|]. simpl. lia. }
    assert (0 < Str.len rest) as Hlen.
    { unfold Str.len. destruct rest; [done|]. simpl. lia. }
    assert (Str.len (front +:+ String dot rest)
            = Str.len front + 1 + Str.len rest) as Htotal.
    { unfold Str.len. rewrite length_app_string. simpl. lia. }
    rewrite Htotal.
    replace ((0 <? 0 + Str.len front)
             && (0 + Str.len front <? Str.len front + 1 + Str.len rest - 1))
      with true; cycle 1.
    { symmetry. apply andb_true_iff. split; apply Z.ltb_lt; lia. }
    unfold Str.slice_from, Str.len.
    replace (Z.to_nat (0 + Z.of_nat (String.length front)))
      with (String.length front) by lia.
    apply drop_app_length. }
  split; [done|]. unfold get_file_extension. by rewrite Heq.
Qed.

(* ===================================================================== *)
(** * Further properties: redirect patterns *)
(* ===================================================================== *)

Lemma substring_of_empty s : Str.substring_of "" s.
Proof. exists "", s. by rewrite !app_empty_l. Qed.

(** X3.  An empty string among the redirect domains matches every URL
    that has a host: with such an entry every downloaded file is
    redirected. *)
Theorem matches_redirect_domain_empty_pattern
    (urlparse_netloc : string → option string) (url host : string)
    (redirect_domains : list string) :
  url ≠ "" → urlparse_netloc url = Some host → host ≠ "" →
  "" ∈ redirect_domains →
  matches_redirect_domain urlparse_netloc url redirect_domains = true.
Proof.
  intros Hurl Hhost Hne Hin. apply matches_redirect_domain_spec.
  split; [done|]. exists host, "". split; [done|]. split; [done|].
  split; [done|]. apply substring_of_empty.
Qed.

(** X4.  Whether a URL matches depends on the set of patterns only: more
    patterns never lose a match, so neither the order of the list nor a
    repeated entry matters.  No pattern at all matches nothing, and a URL
    the parser rejects matches nothing. *)
Theorem matches_redirect_domain_patterns
    (urlparse_netloc : string → option string) (url : string) :
  (∀ domains1 domains2 : list string,
     domains1 ⊆ domains2 →
     matches_redirect_domain urlparse_netloc url domains1 = true →
     matches_redirect_domain urlparse_netloc url domains2 = true)
  ∧ (∀ domains1 domains2 : list string,
       domains1 ⊆ domains2 → domains2 ⊆ domains1 →
       matches_redirect_domain urlparse_netloc url domains1
       = matches_redirect_domain urlparse_netloc url domains2)
  ∧ matches_redirect_domain urlparse_netloc url [] = false
  ∧ (∀ redirect_domains,
       urlparse_netloc url = None →
       matches_redirect_domain urlparse_netloc url redirect_domains = false).
Proof.
  assert (∀ domains1 domains2 : list string,
            domains1 ⊆ domains2 →
            matches_redirect_domain urlparse_netloc url domains1 = true →
            matches_redirect_domain urlparse_netloc url domains2 = true)
    as Hmono.
  { intros domains1 domains2 Hsub Hm.
    apply matches_redirect_domain_spec
      in Hm as (Hurl & host & pattern & Hhost & Hne & Hin & Hblock).
    apply matches_redirect_domain_spec. split; [done|].
    exists host, pattern. split; [done|]. split; [done|].
    split; [by apply Hsub|done]. }
  split; [done|]. split.
  { intros domains1 domains2 H12 H21.
    destruct (matches_redirect_domain urlparse_netloc url domains1) eqn:H1.
    - symmetry. by eapply Hmono.
    - destruct (matches_redirect_domain urlparse_netloc url domains2)
        eqn:H2; [|done].
      apply (Hmono _ _ H21) in H2. congruence. }
  split.
  { destruct (matches_redirect_domain urlparse_netloc url []) eqn:Hm;
      [|done].
    apply matches_redirect_domain_spec
      in Hm as (_ & ? & ? & _ & _ & Hin & _).
    by apply elem_of_nil in Hin. }
  intros redirect_domains Hraise.
  destruct (matches_redirect_domain urlparse_netloc url redirect_domains)
    eqn:Hm; [|done].
  apply matches_redirect_domain_spec in Hm as (_ & ? & ? & Hhost & _).
  congruence.
Qed.

(* ===================================================================== *)
(** * Further properties: the configuration document *)
(* ===================================================================== *)





(** X6.  On the type rules parsed from a [type_rules] mapping,
    [find_matching_type_rule] returns the rule of the first entry of the
    mapping, in the order of the document, one of whose extensions is the
    suffix of the file up to case; the file then goes to the destination
    of that entry, or to a folder of the entry's name when it configures
    none. *)
Theorem parsed_type_rules_document_order
    (file_path : Path) (items : list (string * TypeConfig)) :
  let listed (type_config : TypeConfig) : Prop :=
    ∃ e, e ∈ get (cfg_extensions type_config) []
         ∧ Str.lower e = Str.lower (suffix file_path) in
  match find_matching_type_rule file_path (parse_type_rules items) with
  | Some type_rule =>
      ∃ before type_name type_config after,
        items = before ++ (type_name, type_config) :: after
        ∧ listed type_config
        ∧ (∀ n c, (n, c) ∈ before → ¬ listed c)
        ∧ TypeRule.name type_rule = type_name
        ∧ TypeRule.destination type_rule
          = match cfg_destination type_config with
            | Some destination => destination
            | None => type_name
            end
  | None => ∀ n c, (n, c) ∈ items → ¬ listed c
  end.
Proof.
  intros listed. induction items as [|[n c] rest IH].
  - simpl. intros ? ? Hin. by apply elem_of_nil in Hin.
  - change (parse_type_rules ((n, c) :: rest))
      with (TypeRule.mk n (map Str.lower (get (cfg_extensions c) []))
              (get (cfg_destination c) n) :: parse_type_rules rest).
    rewrite find_matching_type_rule_cons. simpl. case_decide as Hext.
    + exists [], n, c, rest. split; [done|].
      split; [by apply lowered_extension_match|].
      split; [intros ? ? Hin; by apply elem_of_nil in Hin|].
      split; [done|]. by destruct (cfg_destination c).
    + rewrite lowered_extension_match in Hext.
      destruct (find_matching_type_rule file_path (parse_type_rules rest))
        as [found|].
      * destruct IH as (before & tn & tc & after & -> & Hl & Hb & Hn & Hd).
        exists ((n, c) :: before), tn, tc, after. split; [done|].
        split; [done|]. split; [|done].
        intros n' c' [[= -> ->]|Hin]%elem_of_cons; [done|]. by eapply Hb.
      * intros n' c' [[= -> ->]|Hin]%elem_of_cons; [done|]. by eapply IH.
Qed.

(* ===================================================================== *)
(** * Further properties: failures of a move *)
(* ===================================================================== *)

(** [os.rename] writes no log, and when it raises it has changed
    nothing. *)
Lemma os_rename_outcome src dst w o w' :
  os_rename src dst w = (o, w') →
  log w' = log w
  ∧ match o with
    | Return _ => True
    | Raise _ => w' = w
    | OutOfFuel => False
    end.
Proof.
  unfold os_rename. simpl.
  repeat (case_match; simpl); intros [= <- <-]; done.
Qed.

Lemma shutil_move_outcome src dst w o w' :
  shutil_move src dst w = (o, w') →
  log w' = log w
  ∧ match o with
    | Return _ => True
    | Raise _ => w' = w
    | OutOfFuel => False
    end.
Proof.
  unfold shutil_move. erewrite bind_return by apply is_dir_spec.
  destruct (match files w !! dst with
            | Some n => node_is_dir n
            | None => false
            end); [|apply os_rename_outcome].
  case_decide; [apply os_rename_outcome|].
  erewrite bind_return by apply path_exists_spec.
  case_bool_decide; [|apply os_rename_outcome].
  by intros [= <- <-].
Qed.

(** What [move_file] answers, what it logs and what it keeps. *)
Lemma move_file_outcome fuel source destination_dir w o w' :
  move_file fuel source destination_dir w = (o, w') →
  match o with
  | Return true =>
      ∃ target,
        log w' = log w ++ [(INFO, MsgMoved (path_name source) target)]
  | Return false =>
      (∃ e, log w' = log w ++ [(ERROR, MsgFailedToMove source e)])
      ∧ files w ⊆ files w'
  | Raise _ => False
  | OutOfFuel => log w' = log w ∧ files w ⊆ files w'
  end.
Proof.
  intros Hrun. unfold move_file in Hrun.
  destruct (ensure_directory destination_dir w) as [o1 w1] eqn:Hdir.
  pose proof (ensure_directory_extends _ _ _ _ Hdir) as [[Hsub Hlog1] Hfuel1].
  destruct o1 as [[]|e|]; [| |done]; cycle 1.
  { erewrite try_raise in Hrun; cycle 1.
    { erewrite bind_raise by exact Hdir. done. }
    unfold bind, logger, ret in Hrun. injection Hrun as <- <-. simpl.
    rewrite Hlog1. eauto. }
  destruct (generate_unique_filename fuel destination_dir
              (path_name source) w1) as [o2 w2] eqn:Hgen.
  pose proof (generate_unique_filename_sound _ _ _ _ _ _ Hgen) as [-> Ho2].
  destruct o2 as [target|e|]; [|done|]; cycle 1.
  { erewrite try_out_of_fuel in Hrun; cycle 1.
    { erewrite bind_return by exact Hdir.
      erewrite bind_out_of_fuel by exact Hgen. done. }
    by injection Hrun as <- <-. }
  destruct (shutil_move source target w1) as [o3 w3] eqn:Hmove.
  pose proof (shutil_move_outcome _ _ _ _ _ Hmove) as [Hlog3 Ho3].
  destruct o3 as [[]|e|]; [| |done].
  - erewrite try_return in Hrun; cycle 1.
    { erewrite bind_return by exact Hdir.
      erewrite bind_return by exact Hgen.
      erewrite bind_return by exact Hmove.
      erewrite bind_return by apply logger_spec. done. }
    injection Hrun as <- <-. simpl. rewrite Hlog3, Hlog1. eauto.
  - subst w3. erewrite try_raise in Hrun; cycle 1.
    { erewrite bind_return by exact Hdir.
      erewrite bind_return by exact Hgen.
      erewrite bind_raise by exact Hmove. done. }
    unfold bind, logger, ret in Hrun. injection Hrun as <- <-. simpl.
    rewrite Hlog1. eauto.
Qed.

(** X7.  [move_file] raises nothing: it answers [True] with one [INFO]
    record of the move, or [False] with one [ERROR] record of the failure.
    A failed move loses nothing: every entry of the file system is still
    there as it was (the directories made on the way stay). *)
Theorem move_file_catches_every_failure
    (fuel : nat) (source destination_dir : Path) (w w' : world)
    (o : outcome bool) :
  move_file fuel source destination_dir w = (o, w') →
  (∀ e, o ≠ Raise e)
  ∧ (o = Return true →
     ∃ target,
       log w' = log w ++ [(INFO, MsgMoved (path_name source) target)])
  ∧ (o = Return false →
     (∃ e, log w' = log w ++ [(ERROR, MsgFailedToMove source e)])
     ∧ ∀ q x, files w !! q = Some x → files w' !! q = Some x).
Proof.
  intros Hrun. apply move_file_outcome in Hrun.
  split; [intros e ->; done|]. split.
  - by intros ->.
  - intros ->. destruct Hrun as [Hlog Hsub]. split; [done|].
    intros q x Hq. by eapply lookup_weaken.
Qed.







(* ===================================================================== *)
(** * Further properties: what a run leaves alone *)
(* ===================================================================== *)

Lemma logged_move_frame lvl msg fuel source destination_dir w o w' :
  regular_file (files w) source →
  (logger lvl msg >> move_file fuel source destination_dir >> ret tt) w
  = (o, w') →
  ∀ q x, q ≠ source → files w !! q = Some x → files w' !! q = Some x.
Proof.
  intros Hfile. erewrite bind_return by apply logger_spec. unfold bind, ret.
  destruct (move_file fuel source destination_dir _) as [o1 w1] eqn:Hmove.
  intros Hrun q x Hq Hx.
  assert (files w1 !! q = Some x) as Hkept.
  { eapply move_file_frame; [|exact Hmove|exact Hq|exact Hx]. done. }
  destruct o1; by injection Hrun as <- <-.
Qed.

(** X9.  [process_file] touches no file but the one it was given: when
    the path is not a directory after the wait, every other entry of the
    file system, as the service found it or as the wait left it, is there
    afterwards, unchanged. *)
Theorem process_file_touches_one_file
    (urlparse_netloc : string → option string) (fuel : nat)
    (during_wait : gmap Path node → gmap Path node)
    (file_path : Path) (rule : WatchRule.t) (w w' : world)
    (o : outcome unit) :
  ¬ directory (during_wait (files w)) file_path →
  process_file urlparse_netloc fuel during_wait file_path rule w = (o, w') →
  ∃ base,
    (base = files w ∨ base = during_wait (files w))
    ∧ ∀ q x, q ≠ file_path → base !! q = Some x → files w' !! q = Some x.
Proof.
  intros Hnodir Hrun.
  destruct (decide (directory (files w) file_path
                    ∨ skipped_name (path_name file_path) = true))
    as [Hskip|Hchecked].
  { rewrite process_file_skips in Hrun by done. injection Hrun as <- <-.
    exists (files w). split; [by left|done]. }
  destruct (decide (stable_size (files w) (during_wait (files w))
                      file_path)) as [Hstable|Hunstable]; cycle 1.
  { destruct (process_file_not_ready urlparse_netloc fuel during_wait
                file_path rule w Hunstable) as (w1 & Hret & Hfiles).
    rewrite Hret in Hrun. injection Hrun as <- <-.
    exists (files w1). split; [|done].
    destruct Hfiles as [->| ->]; [by left|by right]. }
  assert (passes_checks during_wait file_path w) as Hchecks.
  { split; [|split; [|done]].
    - destruct Hstable as (n1 & _ & Hn1 & _). exists n1. split; [done|].
      destruct (node_is_dir n1) eqn:Hd; [|done].
      destruct Hchecked. left. by exists n1.
    - destruct (skipped_name (path_name file_path)); [|done].
      destruct Hchecked. by right. }
  assert (regular_file (files (at_rules during_wait file_path w)) file_path)
    as Hfile.
  { destruct Hstable as (_ & n2 & _ & Hn2 & _). exists n2. split; [done|].
    destruct (node_is_dir n2) eqn:Hd; [|done].
    destruct Hnodir. by exists n2. }
  exists (during_wait (files w)). split; [by right|].
  rewrite process_file_rules in Hrun by done.
  assert (∀ o1 w1,
            type_matching fuel file_path rule
              (at_rules during_wait file_path w) = (o1, w1) →
            ∀ q x, q ≠ file_path →
                   during_wait (files w) !! q = Some x →
                   files w1 !! q = Some x) as Htype.
  { intros o1 w1. unfold type_matching.
    destruct (find_matching_type_rule file_path (WatchRule.type_rules rule)).
    - intros Hmoved. exact (logged_move_frame _ _ _ _ _ _ _ _ Hfile Hmoved).
    - by intros [= <- <-]. }
  destruct (download_source (during_wait (files w)) file_path) as [url|];
    [|exact (Htype _ _ Hrun)].
  destruct (Str.truthy url
            && matches_redirect_domain urlparse_netloc url
                 (WatchRule.redirect_domains rule));
    [|exact (Htype _ _ Hrun)].
  unfold redirect in Hrun.
  exact (logged_move_frame _ _ _ _ _ _ _ _ Hfile Hrun).
Qed.

(** X10.  Two files moved one after the other into one directory both
    arrive: they sit at two different paths of it, each with its content,
    whatever their names; the second move does not take the place of the
    first. *)
Theorem two_moves_keep_both
    (fuel1 fuel2 : nat) (source1 source2 destination_dir : Path)
    (w w1 w2 : world) (n1 n2 : node) :
  files w !! source1 = Some n1 → node_is_dir n1 = false →
  files w !! source2 = Some n2 → node_is_dir n2 = false →
  source1 ≠ source2 →
  move_file fuel1 source1 destination_dir w = (Return true, w1) →
  move_file fuel2 source2 destination_dir w1 = (Return true, w2) →
  ∃ target1 target2,
    target1 ≠ target2
    ∧ files w !! target1 = None ∧ files w1 !! target2 = None
    ∧ files w2 !! target1 = Some n1
    ∧ files w2 !! target2 = Some n2
    ∧ files w2 !! source2 = None.
Proof.
  intros Hs1 Hf1 Hs2 Hf2 Hne Hmove1 Hmove2.
  destruct (move_file_moved _ _ _ _ _ _ Hs1 Hf1 Hmove1)
    as (target1 & _ & Hfree1 & Hat1 & Hgone1).
  assert (files w1 !! source2 = Some n2) as Hs2'.
  { eapply move_file_frame; [|exact Hmove1| |exact Hs2]; [|done].
    by exists n1. }
  destruct (move_file_moved _ _ _ _ _ _ Hs2' Hf2 Hmove2)
    as (target2 & _ & Hfree2 & Hat2 & Hgone2).
  exists target1, target2. split; [congruence|].
  split; [done|]. split; [done|]. split; [|done].
  eapply move_file_frame; [|exact Hmove2| |exact Hat1].
  - by exists n2.
  - congruence.
Qed.

(* ===================================================================== *)
(** * Further properties: the directories of the rules *)
(* ===================================================================== *)

Lemma directory_extends w w' d :
  extends w w' → directory (files w) d → directory (files w') d.
Proof.
  intros Hext (n & Hn & Hd). exists n. split; [|done].
  by eapply extends_lookup.
Qed.

Lemma mkdir_guard_directory (exist_ok : bool) self e w w' :
  (let* d := is_dir self in
   if negb exist_ok || negb d then raise e else ret tt) w = (Return tt, w') →
  w' = w ∧ directory (files w) self.
Proof.
  unfold bind, is_dir, read, raise, ret.
  destruct (files w !! self) as [n|] eqn:Hn.
  - destruct (node_is_dir n) eqn:Hd; destruct exist_ok; simpl;
      intros [= <-]. split; [done|]. by exists n.
  - destruct exist_ok; simpl; intros [= <-].
Qed.

Lemma os_mkdir_directory p w w' :
  os_mkdir p w = (Return tt, w') → directory (files w') p.
Proof.
  destruct (os_mkdir_cases p w) as [[e ->]|[Hfree ->]]; intros [= <-].
  exists new_directory. simpl. by rewrite lookup_insert_eq.
Qed.

Lemma mkdir_single_directory exist_ok self w w' :
  mkdir_single exist_ok self w = (Return tt, w') →
  directory (files w') self.
Proof.
  unfold mkdir_single, try_except.
  destruct (os_mkdir self w) as [[[]|e|] w1] eqn:Hmk.
  - intros [= <-]. by eapply os_mkdir_directory.
  - destruct (os_mkdir_cases self w) as [[e' He]|[_ He]];
      rewrite He in Hmk; [|done]. injection Hmk as <- <-.
    destruct e'; try done;
      intros [-> ?]%mkdir_guard_directory; done.
  - done.
Qed.

(** When [mkdir(parents=True)] returns, the directory is there. *)
Lemma mkdir_parents_directory r rev_parts : ∀ exist_ok w w',
  mkdir_parents r rev_parts exist_ok w = (Return tt, w') →
  directory (files w') (mkPath r (rev rev_parts)).
Proof.
  destruct rev_parts as [|x up]; intros exist_ok w w'; simpl;
    unfold try_except.
  - destruct (os_mkdir (mkPath r []) w) as [[[]|e|] w1] eqn:Hmk.
    + intros [= <-]. by eapply os_mkdir_directory.
    + destruct (os_mkdir_cases (mkPath r []) w) as [[e' He]|[_ He]];
        rewrite He in Hmk; [|done]. injection Hmk as <- <-.
      destruct e'; try done; intros [-> ?]%mkdir_guard_directory; done.
    + done.
  - destruct (os_mkdir (mkPath r (rev up ++ [x])) w) as [[[]|e|] w1] eqn:Hmk.
    + intros [= <-]. by eapply os_mkdir_directory.
    + destruct (os_mkdir_cases (mkPath r (rev up ++ [x])) w)
        as [[e' He]|[_ He]]; rewrite He in Hmk; [|done].
      injection Hmk as <- <-.
      destruct e'; try (intros [-> ?]%mkdir_guard_directory; done).
      unfold bind. destruct (mkdir_parents r up true w) as [[[]| |] w2];
        [|done..].
      apply mkdir_single_directory.
    + done.
Qed.

Lemma ensure_directory_directory d w w' :
  ensure_directory d w = (Return tt, w') → directory (files w') d.
Proof.
  intros Hrun. apply mkdir_parents_directory in Hrun.
  rewrite rev_involutive in Hrun. by destruct d.
Qed.

Section ForEach.

Context {A : Type} (body : A → M unit).

Hypothesis body_extends : ∀ x w o w',
  body x w = (o, w') → extends w w' ∧ o ≠ OutOfFuel.

Lemma for_each_extends xs : ∀ w o w',
  for_each xs body w = (o, w') → extends w w' ∧ o ≠ OutOfFuel.
Proof.
  induction xs as [|x rest IH]; intros w o w'; simpl.
  - intros [= <- <-]. split; [apply extends_refl|done].
  - unfold bind. destruct (body x w) as [[[]|e|] w1] eqn:Hx;
      apply body_extends in Hx as [Hext Hfuel].
    + intros [Hext' ?]%IH. split; [by eapply extends_trans|done].
    + by intros [= <- <-].
    + done.
Qed.

(** What each round establishes, and later rounds keep, holds at the
    end. *)
Lemma for_each_establishes (P : A → world → Prop) xs :
  (∀ x w w', body x w = (Return tt, w') → P x w') →
  (∀ x w w', extends w w' → P x w → P x w') →
  ∀ w w', for_each xs body w = (Return tt, w') → ∀ x, x ∈ xs → P x w'.
Proof.
  intros Hbody Hkeep. induction xs as [|x rest IH]; intros w w'; simpl.
  - intros _ y Hy. by apply elem_of_nil in Hy.
  - unfold bind. destruct (body x w) as [[[]|e|] w1] eqn:Hx; [|done..].
    intros Hrest y [->|Hy]%elem_of_cons.
    + apply for_each_extends in Hrest as [Hext _].
      eapply Hkeep; [exact Hext|]. by eapply Hbody.
    + by eapply IH.
Qed.

Lemma for_each_nothing_to_do xs w :
  (∀ x, x ∈ xs → body x w = (Return tt, w)) →
  for_each xs body w = (Return tt, w).
Proof.
  induction xs as [|x rest IH]; intros Hall; simpl; [done|].
  erewrite bind_return by (apply Hall; by left).
  apply IH. intros y Hy. apply Hall. by right.
Qed.

End ForEach.

Lemma setup_rule_extends rule w o w' :
  setup_rule rule w = (o, w') → extends w w' ∧ o ≠ OutOfFuel.
Proof.
  unfold setup_rule, bind.
  destruct (ensure_directory _ w) as [[[]|e|] w1] eqn:H1;
    apply ensure_directory_extends in H1 as [Hext1 ?];
    [|by intros [= <- <-]|done].
  destruct (ensure_directory _ w1) as [[[]|e|] w2] eqn:H2;
    apply ensure_directory_extends in H2 as [Hext2 ?];
    [|intros [= <- <-]; split; [by eapply extends_trans|done]|done].
  intros Hloop. apply for_each_extends in Hloop as [Hext3 ?].
  - split; [|done]. eapply extends_trans; [|exact Hext3].
    by eapply extends_trans.
  - intros type_rule. apply ensure_directory_extends.
Qed.

Lemma setup_rule_directories rule w w' :
  setup_rule rule w = (Return tt, w') →
  ∀ d, d ∈ rule_directories rule → directory (files w') d.
Proof.
  unfold setup_rule, bind.
  destruct (ensure_directory _ w) as [[[]|e|] w1] eqn:H1; [|done..].
  destruct (ensure_directory _ w1) as [[[]|e|] w2] eqn:H2; [|done..].
  intros Hloop d Hd.
  pose proof (ensure_directory_extends _ _ _ _ H2) as [Hext2 _].
  pose proof Hloop as Hloop'.
  apply for_each_extends in Hloop' as [Hext3 _];
    [|intros type_rule; apply ensure_directory_extends].
  unfold rule_directories in Hd.
  apply elem_of_cons in Hd as [->|Hd].
  { eapply directory_extends; [exact Hext3|].
    eapply directory_extends; [exact Hext2|].
    by eapply ensure_directory_directory. }
  apply elem_of_cons in Hd as [->|Hd].
  { eapply directory_extends; [exact Hext3|].
    by eapply ensure_directory_directory. }
  apply elem_of_map in Hd as (type_rule & -> & Hin).
  eapply (for_each_establishes _
            (λ type_rule, ensure_directory_extends _)
            (λ type_rule w,
               directory (files w)
                 (joinpath (WatchRule.watch_directory rule)
                    (TypeRule.destination type_rule))));
    [| |exact Hloop|exact Hin].
  - intros x w0 w0'. apply ensure_directory_directory.
  - intros x w0 w0'. apply directory_extends.
Qed.

(** X11.  [_setup_directories] only makes directories: every entry of the
    file system stays as it was and nothing is logged.  When it returns,
    the watch directory, the redirect destination and the destination of
    every type rule of every rule is a directory.  Where they all are
    directories already, it changes nothing. *)
Theorem setup_directories_provides
    (rules : list WatchRule.t) (w : world) :
  (∀ o w',
     _setup_directories rules w = (o, w') →
     (∀ q x, files w !! q = Some x → files w' !! q = Some x)
     ∧ log w' = log w
     ∧ o ≠ OutOfFuel
     ∧ (o = Return tt →
        ∀ rule d, rule ∈ rules → d ∈ rule_directories rule →
                  directory (files w') d))
  ∧ ((∀ rule d, rule ∈ rules → d ∈ rule_directories rule →
                directory (files w) d) →
     _setup_directories rules w = (Return tt, w)).
Proof.
  change (_setup_directories rules) with (for_each rules setup_rule).
  split.
  - intros o w' Hrun.
    pose proof (for_each_extends _ setup_rule_extends _ _ _ _ Hrun)
      as [Hext Hfuel].
    split; [intros q x; by apply extends_lookup|].
    split; [by destruct Hext|]. split; [done|].
    intros -> rule d Hrule Hd.
    eapply (for_each_establishes _ setup_rule_extends
              (λ rule w, ∀ d, d ∈ rule_directories rule →
                              directory (files w) d));
      [| |exact Hrun|exact Hrule|exact Hd].
    + intros x w0 w0'. apply setup_rule_directories.
    + intros x w0 w0' Hext0 Hall d0 Hd0.
      eapply directory_extends; [exact Hext0|]. by apply Hall.
  - intros Hall. apply for_each_nothing_to_do. intros rule Hrule.
    unfold setup_rule.
    erewrite bind_return; cycle 1.
    { apply ensure_directory_existing. apply (Hall rule); [done|]. by left. }
    erewrite bind_return; cycle 1.
    { apply ensure_directory_existing. apply (Hall rule); [done|].
      right. by left. }
    apply for_each_nothing_to_do. intros type_rule Htr.
    apply ensure_directory_existing. apply (Hall rule); [done|].
    do 2 right. apply elem_of_map. by exists type_rule.
Qed.

(* ===================================================================== *)
(** * Further properties: the event gate *)
(* ===================================================================== *)

Lemma allowed_loop_spec rule file_parent source_directories :
  (fix loop (source_directories : list string) : bool :=
     match source_directories with
     | [] => false
     | src_dir :: rest =>
         if decide (file_parent = allowed_path rule src_dir) then true
         else loop rest
     end) source_directories = true
  ↔ ∃ src_dir, src_dir ∈ source_directories
               ∧ file_parent = allowed_path rule src_dir.
Proof.
  induction source_directories as [|src_dir rest IH].
  - split; [done|]. intros (? & Hin & _). by apply elem_of_nil in Hin.
  - case_decide as Hhere.
    + split; [|done]. intros _. exists src_dir. split; [by left|done].
    + rewrite IH. split.
      * intros (s & Hin & Heq). exists s. split; [by right|done].
      * intros (s & [->|Hin]%elem_of_cons & Heq); [done|]. by exists s.
Qed.

Lemma should_process_spec rule event :
  _should_process rule event = true ↔
  is_directory event = false
  ∧ ∃ src_dir,
      src_dir ∈ WatchRule.source_directories rule
      ∧ parent (parse_path (event_path event)) = allowed_path rule src_dir.
Proof.
  unfold _should_process. destruct (is_directory event).
  { split; [done|]. by intros [? _]. }
  rewrite <- allowed_loop_spec.
  match goal with |- context [negb ?b] => destruct b end; simpl.
  - split; [done|]. by intros [_ ?].
  - split; [done|]. by intros [_ ?].
Qed.

Lemma should_process_default rule event :
  WatchRule.source_directories rule = ["."] →
  _should_process rule event = true ↔
  is_directory event = false
  ∧ parent (parse_path (event_path event)) = WatchRule.watch_directory rule.
Proof.
  intros Hdefault. rewrite should_process_spec, Hdefault. split.
  - intros [Hfile (s & ->%list_elem_of_singleton & Heq)]. split; [done|].
    rewrite Heq. unfold allowed_path. by rewrite decide_True.
  - intros [Hfile Heq]. split; [done|]. exists ".".
    split; [by left|]. rewrite Heq. unfold allowed_path.
    by rewrite decide_True.
Qed.

(** X12.  [_should_process] accepts an event exactly when it is not a
    directory event and the parent of its path (the destination path of
    the event when it has one, its source path otherwise) is the
    directory of one of the rule's source directories, the entry [.]
    standing for the watch directory.  So directory events are dropped,
    and with the default [source_directories] only files directly in the
    watch directory are accepted. *)
Theorem should_process_parent_is_source_directory
    (rule : WatchRule.t) (event : Event) :
  (_should_process rule event = true ↔
   is_directory event = false
   ∧ ∃ src_dir,
       src_dir ∈ WatchRule.source_directories rule
       ∧ parent (parse_path
                   match dest_path event with
                   | Some dest => if Str.truthy dest then dest
                                  else src_path event
                   | None => src_path event
                   end)
         = if decide (src_dir = ".") then WatchRule.watch_directory rule
           else joinpath (WatchRule.watch_directory rule) src_dir)
  ∧ (is_directory event = true → _should_process rule event = false)
  ∧ (WatchRule.source_directories rule = ["."] →
     (_should_process rule event = true ↔
      is_directory event = false
      ∧ parent (parse_path (event_path event))
        = WatchRule.watch_directory rule)).
Proof.
  split; [apply should_process_spec|]. split.
  - intros Hdir. apply not_true_is_false. intros Hs.
    apply should_process_spec in Hs as [? _]. congruence.
  - apply should_process_default.
Qed.

(** X13.  With the default [source_directories], the service does not
    pick up what it has filed: an event for a path in a destination
    folder [watch_directory / destination], the destination a plain
    name, is dropped. *)
Theorem should_process_drops_filed_files
    (rule : WatchRule.t) (event : Event) (destination : string) :
  WatchRule.source_directories rule = ["."] →
  clean destination →
  parent (parse_path (event_path event))
  = joinpath (WatchRule.watch_directory rule) destination →
  _should_process rule event = false.
Proof.
  intros Hdefault Hclean Hparent. apply not_true_is_false. intros Hs.
  apply should_process_default in Hs as [_ Heq]; [|done].
  rewrite Hparent, joinpath_component in Heq by done.
  apply (f_equal (λ p, length (parts p))) in Heq. simpl in Heq.
  rewrite length_app in Heq. simpl in Heq. lia.
Qed.

(* ===================================================================== *)
(** * Further properties: moves that succeed *)
(* ===================================================================== *)

Lemma os_rename_file_into_directory src dst w n :
  files w !! src = Some n → node_is_dir n = false →
  files w !! dst = None → directory (files w) (parent dst) →
  os_rename src dst w
  = (Return tt, mkWorld (<[dst := n]> (delete src (files w))) (log w)).
Proof.
  intros Hsrc Hfile Hdst (d & Hd & Hdd). unfold os_rename. simpl.
  rewrite Hsrc, Hd, Hdd. simpl.
  rewrite decide_False by congruence. by rewrite Hfile, Hdst.
Qed.

Lemma joinpath_nothing d : joinpath d "." = d ∧ joinpath d "" = d.
Proof.
  unfold joinpath.
  replace (parse_path ".") with (mkPath "" []) by (by vm_compute).
  replace (parse_path "") with (mkPath "" []) by (by vm_compute).
  simpl. rewrite app_nil_r. by destruct d.
Qed.

Lemma path_name_joinpath_component d s :
  clean s → path_name (joinpath d s) = s.
Proof.
  intros Hs. rewrite joinpath_component by done. unfold path_name. simpl.
  apply last_last.
Qed.

(** A regular file with a plain name, moved into a directory that is
    there, with fuel for every entry: the move succeeds. *)
Lemma move_file_succeeds fuel source destination_dir w n :
  files w !! source = Some n → node_is_dir n = false →
  clean (path_name source) →
  directory (files w) destination_dir →
  (size (files w) < fuel)%nat →
  ∃ target,
    (target = joinpath destination_dir (path_name source)
     ∨ ∃ k, (1 ≤ k)%N
            ∧ target = candidate destination_dir (path_name source) k)
    ∧ (files w !! joinpath destination_dir (path_name source) = None →
       target = joinpath destination_dir (path_name source))
    ∧ parent target = destination_dir
    ∧ files w !! target = None
    ∧ move_file fuel source destination_dir w
      = (Return true,
         mkWorld (<[target := n]> (delete source (files w)))
           (log w ++ [(INFO, MsgMoved (path_name source) target)])).
Proof.
  intros Hsrc Hfile Hclean Hdir Hfuel.
  destruct (generate_unique_filename_spec fuel destination_dir
              (path_name source) w Hfuel)
    as (target & Hgen & Hfresh & Hplain & Hnumbered).
  assert ((target = joinpath destination_dir (path_name source)
           ∨ ∃ k, (1 ≤ k)%N
                  ∧ target = candidate destination_dir (path_name source) k)
          ∧ parent target = destination_dir) as [Hshape Hparent].
  { destruct (files w !! joinpath destination_dir (path_name source))
      as [x|] eqn:Hx.
    - destruct Hnumbered as (k & Hk & -> & _); [eauto|].
      split; [right; by exists k|apply parent_candidate].
    - rewrite (Hplain eq_refl).
      split; [by left|by apply parent_joinpath_component]. }
  exists target. split; [done|]. split; [done|]. split; [done|].
  split; [done|].
  unfold move_file. erewrite try_return; [done|].
  erewrite bind_return by by apply ensure_directory_existing.
  erewrite bind_return by exact Hgen.
  erewrite bind_return; cycle 1.
  { rewrite shutil_move_fresh by done.
    apply os_rename_file_into_directory; [done..|]. by rewrite Hparent. }
  erewrite bind_return by apply logger_spec. done.
Qed.

(** X14.  A regular file with a plain name, moved into a directory that
    exists, arrives, given fuel for every entry: [move_file] answers
    [True], the file is in that directory under a name that was free, its
    own name when that was free, and it is no longer at its source. *)
Theorem move_file_into_directory_succeeds
    (fuel : nat) (source destination_dir : Path) (w : world) (n : node) :
  files w !! source = Some n → node_is_dir n = false →
  clean (path_name source) →
  directory (files w) destination_dir →
  (size (files w) < fuel)%nat →
  ∃ target w',
    move_file fuel source destination_dir w = (Return true, w')
    ∧ parent target = destination_dir
    ∧ files w !! target = None
    ∧ (files w !! joinpath destination_dir (path_name source) = None →
       target = joinpath destination_dir (path_name source)
       ∧ path_name target = path_name source)
    ∧ files w' !! target = Some n
    ∧ files w' !! source = None
    ∧ log w' = log w ++ [(INFO, MsgMoved (path_name source) target)].
Proof.
  intros Hsrc Hfile Hclean Hdir Hfuel.
  destruct (move_file_succeeds fuel source destination_dir w n
              Hsrc Hfile Hclean Hdir Hfuel)
    as (target & _ & Hplain & Hparent & Hfresh & Hrun).
  exists target. eexists. split; [exact Hrun|]. split; [done|].
  split; [done|]. split.
  { intros Hfree. rewrite (Hplain Hfree). split; [done|].
    by apply path_name_joinpath_component. }
  simpl. split; [by rewrite lookup_insert_eq|]. split; [|done].
  rewrite lookup_insert_ne by congruence. by rewrite lookup_delete_eq.
Qed.

(** X15.  A destination of [.] or of the empty string is the watch
    directory itself.  A file moved into the directory it is in collides
    with itself: it is renamed to [stem_N suffix] there, never left under
    its name. *)
Theorem move_file_within_directory
    (fuel : nat) (destination_dir : Path) (name : string) (w : world)
    (n : node) :
  clean name →
  files w !! joinpath destination_dir name = Some n →
  node_is_dir n = false →
  directory (files w) destination_dir →
  (size (files w) < fuel)%nat →
  joinpath destination_dir "." = destination_dir
  ∧ joinpath destination_dir "" = destination_dir
  ∧ ∃ (k : N) (w' : world),
      (1 ≤ k)%N
      ∧ move_file fuel (joinpath destination_dir name) destination_dir w
        = (Return true, w')
      ∧ files w' !! joinpath destination_dir name = None
      ∧ files w' !! candidate destination_dir name k = Some n
      ∧ parent (candidate destination_dir name k) = destination_dir.
Proof.
  intros Hclean Hsrc Hfile Hdir Hfuel.
  split; [apply joinpath_nothing|]. split; [apply joinpath_nothing|].
  destruct (move_file_collision fuel (joinpath destination_dir name)
              destination_dir w n Hsrc Hfile Hdir)
    as (k & Hk & _ & Hfree & Hrun); [|done|].
  { rewrite path_name_joinpath_component by done. eauto. }
  rewrite path_name_joinpath_component in Hfree, Hrun by done.
  exists k. eexists. split; [done|]. split; [exact Hrun|]. simpl.
  split; [|split; [by rewrite lookup_insert_eq|apply parent_candidate]].
  rewrite lookup_insert_ne by congruence. by rewrite lookup_delete_eq.
Qed.

(* ===================================================================== *)
(** * Further properties: a run of [process_file], end to end *)
(* ===================================================================== *)

Lemma passes_checks_regular_after during_wait file_path w :
  passes_checks during_wait file_path w →
  ¬ directory (during_wait (files w)) file_path →
  ∃ n, during_wait (files w) !! file_path = Some n ∧ node_is_dir n = false.
Proof.
  intros (_ & _ & _ & n2 & _ & Hn2 & _) Hnodir. exists n2. split; [done|].
  destruct (node_is_dir n2) eqn:Hd; [|done]. destruct Hnodir. by exists n2.
Qed.

(** X16.  A file whose size changes during the wait is not ready:
    [process_file] leaves it where it is, with the file system as the
    wait left it, and logs one debug record; it looks at no rule. *)
Theorem process_file_leaves_growing_file
    (urlparse_netloc : string → option string) (fuel : nat)
    (during_wait : gmap Path node → gmap Path node)
    (file_path : Path) (rule : WatchRule.t) (w : world) (n1 n2 : node) :
  files w !! file_path = Some n1 → node_is_dir n1 = false →
  skipped_name (path_name file_path) = false →
  during_wait (files w) !! file_path = Some n2 →
  st_size n1 ≠ st_size n2 →
  process_file urlparse_netloc fuel during_wait file_path rule w
  = (Return tt,
     mkWorld (during_wait (files w))
       (log w ++ [(DEBUG, MsgFileNotReady (path_name file_path))])).
Proof.
  intros Hn1 Hfile Hname Hn2 Hsizes. unfold process_file.
  erewrite bind_return by apply is_dir_spec. rewrite Hn1, Hfile.
  unfold skipped_name in Hname. apply orb_false_elim in Hname as [-> ->].
  erewrite bind_return by apply is_file_ready_spec.
  rewrite bool_decide_eq_false_2; cycle 1.
  { intros (x1 & x2 & Hx1 & Hx2 & Heq). congruence. }
  simpl. by rewrite Hn1.
Qed.

(** X17.  A file past the checks, with no redirect match, whose extension
    is listed by exactly one type rule of the watch rule, is moved into
    that rule's destination folder, when the folder is there, the file
    has a plain name and the fuel covers the file system: afterwards it is
    in [watch_directory / destination] and no longer at its path. *)
Theorem process_file_files_by_extension
    (urlparse_netloc : string → option string) (fuel : nat)
    (during_wait : gmap Path node → gmap Path node)
    (file_path : Path) (rule : WatchRule.t) (type_rule : TypeRule.t)
    (w : world) :
  passes_checks during_wait file_path w →
  ¬ directory (during_wait (files w)) file_path →
  (∀ url, download_source (during_wait (files w)) file_path = Some url →
          matches_redirect_domain urlparse_netloc url
            (WatchRule.redirect_domains rule) = false) →
  type_rule ∈ WatchRule.type_rules rule →
  get_file_extension file_path ∈ TypeRule.extensions type_rule →
  (∀ other, other ∈ WatchRule.type_rules rule →
            get_file_extension file_path ∈ TypeRule.extensions other →
            other = type_rule) →
  clean (path_name file_path) →
  directory (during_wait (files w))
    (joinpath (WatchRule.watch_directory rule)
       (TypeRule.destination type_rule)) →
  (size (during_wait (files w)) < fuel)%nat →
  ∃ target w',
    process_file urlparse_netloc fuel during_wait file_path rule w
    = (Return tt, w')
    ∧ parent target
      = joinpath (WatchRule.watch_directory rule)
          (TypeRule.destination type_rule)
    ∧ during_wait (files w) !! target = None
    ∧ files w' !! target = during_wait (files w) !! file_path
    ∧ files w' !! file_path = None.
Proof.
  intros Hchecks Hnodir Hnoredirect Hin Hext Hunique Hclean Hdir Hfuel.
  destruct (passes_checks_regular_after _ _ _ Hchecks Hnodir)
    as (n & Hn & Hfile).
  assert (find_matching_type_rule file_path (WatchRule.type_rules rule)
          = Some type_rule) as Hfind.
  { pose proof (find_matching_type_rule_spec file_path
                  (WatchRule.type_rules rule)) as Hspec.
    destruct (find_matching_type_rule file_path (WatchRule.type_rules rule))
      as [found|].
    - destruct Hspec as (earlier & later & Hsplit & Hfound & _).
      f_equal. apply Hunique; [|done]. rewrite Hsplit.
      apply elem_of_app. right. by left.
    - by destruct (Hspec type_rule Hin). }
  rewrite process_file_rules by done.
  assert (∃ target w',
            type_matching fuel file_path rule
              (at_rules during_wait file_path w) = (Return tt, w')
            ∧ parent target
              = joinpath (WatchRule.watch_directory rule)
                  (TypeRule.destination type_rule)
            ∧ during_wait (files w) !! target = None
            ∧ files w' !! target = during_wait (files w) !! file_path
            ∧ files w' !! file_path = None) as Htype.
  { unfold type_matching. rewrite Hfind.
    destruct (move_file_succeeds fuel file_path
                (joinpath (WatchRule.watch_directory rule)
                   (TypeRule.destination type_rule))
                (logged INFO
                   (MsgTypeMatch (TypeRule.name type_rule)
                      (path_name file_path))
                   (at_rules during_wait file_path w))
                n Hn Hfile Hclean Hdir Hfuel)
      as (target & _ & _ & Hparent & Hfresh & Hrun).
    exists target. eexists. split.
    { erewrite bind_return by apply logger_spec.
      erewrite bind_return by exact Hrun. done. }
    split; [done|]. split; [done|]. simpl. rewrite Hn.
    split; [by rewrite lookup_insert_eq|].
    rewrite lookup_insert_ne by (simpl in Hfresh; congruence).
    by rewrite lookup_delete_eq. }
  destruct (download_source (during_wait (files w)) file_path) as [url|];
    [|done].
  by rewrite (Hnoredirect url eq_refl), andb_false_r.
Qed.

(** X18.  A file past the checks whose provenance URL matches a redirect
    domain is moved into the redirect destination, when that folder is
    there, the file has a plain name and the fuel covers the file system:
    afterwards it is in [watch_directory / redirect_destination] and no
    longer at its path, whatever the type rules. *)
Theorem process_file_files_by_provenance
    (urlparse_netloc : string → option string) (fuel : nat)
    (during_wait : gmap Path node → gmap Path node)
    (file_path : Path) (rule : WatchRule.t) (url : string) (w : world) :
  passes_checks during_wait file_path w →
  ¬ directory (during_wait (files w)) file_path →
  download_source (during_wait (files w)) file_path = Some url →
  matches_redirect_domain urlparse_netloc url
    (WatchRule.redirect_domains rule) = true →
  clean (path_name file_path) →
  directory (during_wait (files w))
    (joinpath (WatchRule.watch_directory rule)
       (WatchRule.redirect_destination rule)) →
  (size (during_wait (files w)) < fuel)%nat →
  ∃ target w',
    process_file urlparse_netloc fuel during_wait file_path rule w
    = (Return tt, w')
    ∧ parent target
      = joinpath (WatchRule.watch_directory rule)
          (WatchRule.redirect_destination rule)
    ∧ during_wait (files w) !! target = None
    ∧ files w' !! target = during_wait (files w) !! file_path
    ∧ files w' !! file_path = None.
Proof.
  intros Hchecks Hnodir Hsource Hmatch Hclean Hdir Hfuel.
  destruct (passes_checks_regular_after _ _ _ Hchecks Hnodir)
    as (n & Hn & Hfile).
  rewrite process_file_rules by done. rewrite Hsource, Hmatch.
  apply matches_redirect_domain_spec in Hmatch as [Hurl _].
  apply truthy_true in Hurl. rewrite Hurl. simpl. unfold redirect.
  destruct (move_file_succeeds fuel file_path
              (joinpath (WatchRule.watch_directory rule)
                 (WatchRule.redirect_destination rule))
              (logged INFO
                 (MsgDomainRedirect (extract_domain urlparse_netloc url)
                    (path_name file_path))
                 (at_rules during_wait file_path w))
              n Hn Hfile Hclean Hdir Hfuel)
    as (target & _ & _ & Hparent & Hfresh & Hrun).
  exists target. eexists. split.
  { erewrite bind_return by apply logger_spec.
    erewrite bind_return by exact Hrun. done. }
  split; [done|]. split; [done|]. simpl. rewrite Hn.
  split; [by rewrite lookup_insert_eq|].
  rewrite lookup_insert_ne by (simpl in Hfresh; congruence).
  by rewrite lookup_delete_eq.
Qed.

(* ===================================================================== *)
(** * The further properties on the example folder *)
(* ===================================================================== *)

Ltac by_compute := vm_compute; first [reflexivity | discriminate | exact I].

Ltac refute H :=
  exfalso; revert H;
  match goal with |- ?P → False => change (¬ P) end; by_decide.

Lemma clean_plain_name (s : string) :
  Str.has_char slash s = false → s ≠ "" → s ≠ "." → clean s.
Proof. by intros ? ? ?. Qed.

(** X2 on [a.txt] and the counter 2. *)
Lemma candidate_keeps_suffix_witness :
  suffix (parse_path "a.txt") ≠ ""
  ∧ suffix (candidate (joinpath Example.downloads "Archive") "a.txt" 2)
    = suffix (parse_path "a.txt").
Proof.
  assert (suffix (parse_path "a.txt") ≠ "") as Hsuffix by by_compute.
  split; [exact Hsuffix|].
  exact (proj1 (candidate_keeps_suffix
                  (joinpath Example.downloads "Archive") "a.txt" 2
                  Hsuffix)).
Defined.

(** X3 on a URL of [example.org] and a list with an empty entry. *)
Lemma matches_redirect_domain_empty_pattern_witness :
  Reference.urlparse_netloc "https://example.org/notes.xyz"
  = Some "example.org"
  ∧ matches_redirect_domain Reference.urlparse_netloc
      "https://example.org/notes.xyz" ["facebook"; ""] = true.
Proof.
  assert (Reference.urlparse_netloc "https://example.org/notes.xyz"
          = Some "example.org") as Hhost by by_compute.
  split; [exact Hhost|].
  apply (matches_redirect_domain_empty_pattern Reference.urlparse_netloc
           "https://example.org/notes.xyz" "example.org"
           ["facebook"; ""]); [by_compute|exact Hhost|by_compute|].
  right. left.
Defined.

(** X7 on [pic.jpg] moved to a destination that is a regular file. *)
Lemma move_file_catches_every_failure_witness :
  ∃ e,
    log (move_file 20 (joinpath Example.downloads "pic.jpg")
           (joinpath Example.downloads "tmp") Example.blocked).2
    = log Example.blocked
      ++ [(ERROR, MsgFailedToMove (joinpath Example.downloads "pic.jpg") e)].
Proof.
  refine (proj1 (proj2 (proj2
           (move_file_catches_every_failure 20
              (joinpath Example.downloads "pic.jpg")
              (joinpath Example.downloads "tmp") Example.blocked
              (move_file 20 (joinpath Example.downloads "pic.jpg")
                 (joinpath Example.downloads "tmp") Example.blocked).2
              (move_file 20 (joinpath Example.downloads "pic.jpg")
                 (joinpath Example.downloads "tmp") Example.blocked).1
              (surjective_pairing _))) _)).
  by_compute.
Defined.

(** X9 on [pic.jpg]: [a.txt] is where it was. *)
Lemma process_file_touches_one_file_witness :
  ¬ directory (id (files Example.world0))
      (joinpath Example.downloads "pic.jpg")
  ∧ ∃ base,
      (base = files Example.world0 ∨ base = id (files Example.world0))
      ∧ ∀ q x,
          q ≠ joinpath Example.downloads "pic.jpg" →
          base !! q = Some x →
          files (process_file Reference.urlparse_netloc 20 id
                   (joinpath Example.downloads "pic.jpg") Example.rule
                   Example.world0).2 !! q = Some x.
Proof.
  assert (¬ directory (id (files Example.world0))
            (joinpath Example.downloads "pic.jpg")) as Hnodir by by_decide.
  split; [exact Hnodir|].
  exact (process_file_touches_one_file Reference.urlparse_netloc 20 id
           (joinpath Example.downloads "pic.jpg") Example.rule
           Example.world0 _ _ Hnodir (surjective_pairing _)).
Defined.

(** X10 on the two [a.txt] of the folder, moved into [Archive]. *)
Lemma two_moves_keep_both_witness :
  let first := move_file 20 (joinpath Example.downloads "a.txt")
                 (joinpath Example.downloads "Archive") Example.world0 in
  let second := move_file 20 (joinpath Example.downloads "Documents/a.txt")
                  (joinpath Example.downloads "Archive") first.2 in
  first.1 = Return true ∧ second.1 = Return true
  ∧ ∃ target1 target2,
      target1 ≠ target2
      ∧ files second.2 !! target1 = Some (Example.file 5 AttrAbsent)
      ∧ files second.2 !! target2 = Some (Example.file 1 AttrAbsent).
Proof.
  cbv zeta.
  set (first := move_file 20 (joinpath Example.downloads "a.txt")
                  (joinpath Example.downloads "Archive") Example.world0).
  set (second := move_file 20 (joinpath Example.downloads "Documents/a.txt")
                   (joinpath Example.downloads "Archive") first.2).
  assert (first.1 = Return true) as H1 by by_compute.
  assert (second.1 = Return true) as H2 by by_compute.
  split; [exact H1|]. split; [exact H2|].
  assert (first = (Return true, first.2)) as Hfirst.
  { rewrite <- H1. apply surjective_pairing. }
  assert (second = (Return true, second.2)) as Hsecond.
  { rewrite <- H2. apply surjective_pairing. }
  destruct (two_moves_keep_both 20 20 (joinpath Example.downloads "a.txt")
              (joinpath Example.downloads "Documents/a.txt")
              (joinpath Example.downloads "Archive") Example.world0
              first.2 second.2
              (Example.file 5 AttrAbsent) (Example.file 1 AttrAbsent))
    as (target1 & target2 & Hne & _ & _ & Hat1 & Hat2 & _);
    [by_compute|reflexivity|by_compute|reflexivity|by_compute
    |exact Hfirst|exact Hsecond|].
  exists target1, target2. split; [exact Hne|]. split; [exact Hat1|exact Hat2].
Defined.

(** X13 on the event for [pic.jpg] filed under [Photos]. *)
Lemma should_process_drops_filed_files_witness :
  WatchRule.source_directories Example.rule = ["."]
  ∧ parent (parse_path (event_path Scenario.filed))
    = joinpath (WatchRule.watch_directory Example.rule) "Photos"
  ∧ _should_process Example.rule Scenario.filed = false.
Proof.
  assert (parent (parse_path (event_path Scenario.filed))
          = joinpath (WatchRule.watch_directory Example.rule) "Photos")
    as Hparent by by_compute.
  split; [reflexivity|]. split; [exact Hparent|].
  apply (should_process_drops_filed_files Example.rule Scenario.filed
           "Photos" eq_refl); [|exact Hparent].
  apply clean_plain_name; by_compute.
Defined.

(** X14 on [notes.xyz], moved into [Archive]. *)
Lemma move_file_into_directory_succeeds_witness :
  directory (files Example.world0) (joinpath Example.downloads "Archive")
  ∧ (size (files Example.world0) < 20)%nat
  ∧ ∃ target w',
      move_file 20 (joinpath Example.downloads "notes.xyz")
        (joinpath Example.downloads "Archive") Example.world0
      = (Return true, w')
      ∧ parent target = joinpath Example.downloads "Archive"
      ∧ files w' !! joinpath Example.downloads "notes.xyz" = None.
Proof.
  assert (directory (files Example.world0)
            (joinpath Example.downloads "Archive")) as Hdir by by_decide.
  assert (size (files Example.world0) < 20)%nat as Hfuel.
  { vm_compute. lia. }
  split; [exact Hdir|]. split; [exact Hfuel|].
  destruct (move_file_into_directory_succeeds 20
              (joinpath Example.downloads "notes.xyz")
              (joinpath Example.downloads "Archive") Example.world0
              (Example.file 7 (AttrUrls ["https://example.org/notes.xyz"])))
    as (target & w' & Hrun & Hparent & _ & _ & _ & Hgone & _);
    [by_compute|reflexivity|apply clean_plain_name; by_compute
    |exact Hdir|exact Hfuel|].
  exists target, w'. split; [exact Hrun|]. split; [exact Hparent|exact Hgone].
Defined.

(** X15 on [a.txt], moved into the folder it is in. *)
Lemma move_file_within_directory_witness :
  files Example.world0 !! joinpath Example.downloads "a.txt"
  = Some (Example.file 5 AttrAbsent)
  ∧ ∃ (k : N) (w' : world),
      (1 ≤ k)%N
      ∧ move_file 20 (joinpath Example.downloads "a.txt") Example.downloads
          Example.world0 = (Return true, w')
      ∧ files w' !! joinpath Example.downloads "a.txt" = None.
Proof.
  assert (files Example.world0 !! joinpath Example.downloads "a.txt"
          = Some (Example.file 5 AttrAbsent)) as Hsrc by by_compute.
  split; [exact Hsrc|].
  destruct (move_file_within_directory 20 Example.downloads "a.txt"
              Example.world0 (Example.file 5 AttrAbsent))
    as (_ & _ & k & w' & Hk & Hrun & Hgone & _);
    [apply clean_plain_name; by_compute|exact Hsrc|reflexivity|by_decide
    |vm_compute; lia|].
  exists k, w'. split; [exact Hk|]. split; [exact Hrun|exact Hgone].
Defined.

(** X16 on [pic.jpg], growing from 2048 to 4096 bytes. *)
Lemma process_file_leaves_growing_file_witness :
  files Example.world0 !! joinpath Example.downloads "pic.jpg"
  = Some (Example.file 2048 Example.from_facebook)
  ∧ Scenario.growing (files Example.world0)
    !! joinpath Example.downloads "pic.jpg"
    = Some (Example.file 4096 Example.from_facebook)
  ∧ process_file Reference.urlparse_netloc 20 Scenario.growing
      (joinpath Example.downloads "pic.jpg") Example.rule Example.world0
    = (Return tt,
       mkWorld (Scenario.growing (files Example.world0))
         (log Example.world0
          ++ [(DEBUG,
               MsgFileNotReady
                 (path_name (joinpath Example.downloads "pic.jpg")))])).
Proof.
  assert (files Example.world0 !! joinpath Example.downloads "pic.jpg"
          = Some (Example.file 2048 Example.from_facebook)) as H1
    by by_compute.
  assert (Scenario.growing (files Example.world0)
          !! joinpath Example.downloads "pic.jpg"
          = Some (Example.file 4096 Example.from_facebook)) as H2
    by by_compute.
  split; [exact H1|]. split; [exact H2|].
  apply (process_file_leaves_growing_file Reference.urlparse_netloc 20
           Scenario.growing (joinpath Example.downloads "pic.jpg")
           Example.rule Example.world0
           (Example.file 2048 Example.from_facebook)
           (Example.file 4096 Example.from_facebook) H1 eq_refl);
    [by_compute|exact H2|by_compute].
Defined.

(** X17 on [a.txt], whose extension only the rule Documents lists. *)
Lemma process_file_files_by_extension_witness :
  passes_checks id (joinpath Example.downloads "a.txt") Example.world0
  ∧ ∃ target w',
      process_file Reference.urlparse_netloc 20 id
        (joinpath Example.downloads "a.txt") Example.rule Example.world0
      = (Return tt, w')
      ∧ parent target = joinpath Example.downloads "Documents"
      ∧ files w' !! joinpath Example.downloads "a.txt" = None.
Proof.
  assert (passes_checks id (joinpath Example.downloads "a.txt")
            Example.world0) as Hchecks.
  { split; [by_decide|]. split; [by_compute|by_decide]. }
  split; [exact Hchecks|].
  destruct (process_file_files_by_extension Reference.urlparse_netloc 20 id
              (joinpath Example.downloads "a.txt") Example.rule
              (TypeRule.mk "Documents" [".txt"] "Documents")
              Example.world0 Hchecks)
    as (target & w' & Hrun & Hparent & _ & _ & Hgone).
  - by_decide.
  - intros url Hurl. vm_compute in Hurl. discriminate Hurl.
  - left.
  - by_decide.
  - intros other Hin Hext.
    apply elem_of_cons in Hin as [->|Hin]; [reflexivity|].
    apply elem_of_cons in Hin as [->|Hin]; [refute Hext|].
    apply elem_of_cons in Hin as [->|Hin]; [refute Hext|].
    by apply elem_of_nil in Hin.
  - apply clean_plain_name; by_compute.
  - by_decide.
  - vm_compute. lia.
  - exists target, w'. split; [exact Hrun|]. split; [exact Hparent|exact Hgone].
Defined.

(** X18 on [pic.jpg] in the prepared folder. *)
Lemma process_file_files_by_provenance_witness :
  passes_checks id (joinpath Example.downloads "pic.jpg") Scenario.prepared
  ∧ ∃ target w',
      process_file Reference.urlparse_netloc 20 id
        (joinpath Example.downloads "pic.jpg") Example.rule
        Scenario.prepared
      = (Return tt, w')
      ∧ parent target = joinpath Example.downloads "tmp"
      ∧ files w' !! joinpath Example.downloads "pic.jpg" = None.
Proof.
  assert (passes_checks id (joinpath Example.downloads "pic.jpg")
            Scenario.prepared) as Hchecks.
  { split; [by_decide|]. split; [by_compute|by_decide]. }
  split; [exact Hchecks|].
  destruct (process_file_files_by_provenance Reference.urlparse_netloc 20 id
              (joinpath Example.downloads "pic.jpg") Example.rule
              "https://www.Facebook.com/photos/pic.jpg"
              Scenario.prepared Hchecks)
    as (target & w' & Hrun & Hparent & _ & _ & Hgone);
    [by_decide|by_compute|by_compute|apply clean_plain_name; by_compute
    |by_decide|vm_compute; lia|].
  exists target, w'. split; [exact Hrun|]. split; [exact Hparent|exact Hgone].
Defined.
